(** * Federated search backend: the [/search] handler

    A shallow embedding of the Express handler [app.get('/search', ...)] and
    of [expandQuery], with the properties of the query builder, of the
    provider connectors and of the aggregator/ranker proved over it.

    Conventions of the embedding.
    - A JavaScript string is a [string]: a sequence of code units, here the
      code units below 256.  White space, as [String.prototype.trim] sees it,
      is then TAB, LF, VT, FF, CR, SPACE and NBSP.
    - A JavaScript number is a rational [Q]; equality of numbers is [==].
      NaN, infinities and rounding are outside the embedding.
    - An absent, [undefined] or [null] property is [None].
    - The external services (DataMuse, Europeana, PLOS) are a [World]: for
      each request, the settled outcome of the [axios.get] promise.  The
      handler returns its HTTP response together with the outbound requests
      it issued, in the order it issued them. *)

From Stdlib Require Import String Ascii List Bool Arith Lia DecimalString.
From Stdlib Require Import QArith Qminmax.
From Stdlib Require Import Permutation Sorted.
Import ListNotations.

Close Scope Q_scope.
Open Scope list_scope.
Open Scope string_scope.

(** ** JavaScript built-ins used by the handler *)

Module JS.

(** Truthiness of a string value: every string but the empty one. *)
Definition truthy (s : string) : bool := negb (s =? "").

(** [a || b] on string properties that may be absent. *)
Definition or_else (a : option string) (b : string) : string :=
  match a with
  | Some s => if truthy s then s else b
  | None => b
  end.

(** White space and line terminators below code unit 256. *)
Definition is_white_space (c : ascii) : bool :=
  let n := nat_of_ascii c in
  (((9 <=? n) && (n <=? 13)) || (n =? 32) || (n =? 160))%nat.

Fixpoint trimStart (s : string) : string :=
  match s with
  | EmptyString => EmptyString
  | String c s' => if is_white_space c then trimStart s' else s
  end.

Fixpoint trimEnd (s : string) : string :=
  match s with
  | EmptyString => EmptyString
  | String c s' =>
      match trimEnd s' with
      | EmptyString => if is_white_space c then EmptyString
                       else String c EmptyString
      | r => String c r
      end
  end.

(** [s.trim()] *)
Definition trim (s : string) : string := trimEnd (trimStart s).

(** [s.split(sep)] for a separator of one code unit: the pieces between
    the occurrences of [sep], empty pieces included; never the empty
    array. *)
Fixpoint split (sep : ascii) (s : string) : list string :=
  match s with
  | EmptyString => [EmptyString]
  | String c s' =>
      if Ascii.eqb c sep then EmptyString :: split sep s'
      else match split sep s' with
           | tok :: rest => String c tok :: rest
           | [] => [String c EmptyString]
           end
  end.

(** [arr.join(sep)] on an array of strings. *)
Definition join (sep : string) (arr : list string) : string :=
  String.concat sep arr.

(** [arr.map((x, index) => f x index)] *)
Fixpoint mapi_from {A B : Type} (f : A -> nat -> B) (i : nat) (arr : list A)
  : list B :=
  match arr with
  | [] => []
  | x :: arr' => f x i :: mapi_from f (S i) arr'
  end.

Definition mapi {A B : Type} (f : A -> nat -> B) (arr : list A) : list B :=
  mapi_from f 0 arr.

(** A [Set] of strings, kept in insertion order.  [add] leaves the set
    unchanged when the value is already a member. *)
Definition Set_has (s : list string) (x : string) : bool :=
  existsb (String.eqb x) s.

Definition Set_add (s : list string) (x : string) : list string :=
  if Set_has s x then s else (s ++ [x])%list.

(** [[...new Set(arr)]]: the members in the order they were first added. *)
Definition new_Set (arr : list string) : list string :=
  fold_left Set_add arr [].

(** [x || d] on a number property that may be absent: 0 is falsy. *)
Definition num_or_else (x : option Q) (d : Q) : Q :=
  match x with
  | Some q => if Qeq_bool q 0 then d else q
  | None => d
  end.

(** [x > y] on numbers. *)
Definition gt (x y : Q) : bool := negb (Qle_bool x y).

(** [Math.max(...xs, 0)] *)
Definition Math_max0 (xs : list Q) : Q := fold_right Qmax 0%Q xs.

(** [arr.sort(cmp)]: the sort is stable; [a] is placed before [b] when
    [cmp a b < 0] and after it when [cmp a b > 0].  For a consistent
    comparator the result does not depend on the algorithm; it is computed
    here by insertion, from the right. *)
Section Sort.
Context {A : Type} (cmp : A -> A -> Q).

Fixpoint sort_insert (x : A) (l : list A) : list A :=
  match l with
  | [] => [x]
  | y :: l' =>
      if Qle_bool (cmp x y) 0 then x :: l
      else y :: sort_insert x l'
  end.

Definition sort (l : list A) : list A := fold_right sort_insert [] l.
End Sort.

End JS.

(** ** Data model *)

(** The settled outcome of an [axios.get] promise.  A fulfilled promise
    carries the response, whose [data] is the parsed body; a rejected one
    carries the error (transport failure or non-2xx status). *)
Record AxiosResponse (A : Type) : Type := { data : option A }.
Arguments data {A} _.

Record ErrorResponse : Type := { status : nat; error_data : string }.

Record AxiosError : Type := {
  response : option ErrorResponse;
  message : string
}.

Inductive Settled (A : Type) : Type :=
| fulfilled (value : AxiosResponse A)
| rejected (reason : AxiosError).
Arguments fulfilled {A} _.
Arguments rejected {A} _.

(** DataMuse: [GET /words?ml=<term>&max=<n>] answers an array of word
    objects.  A body that is not such an array is [data = None]. *)
Module Datamuse.
Record Params : Type := { ml : string; max : nat }.
Record Word : Type := { word : string; score : Z }.
Definition Body : Type := list Word.
End Datamuse.

(** Europeana: [GET /record/v2/search.json] with [query], [wskey], [rows]. *)
Module Europeana.
Record Params : Type := { query : string; wskey : string; rows : nat }.
Record Item : Type := {
  title : option (list string);
  edmIsShownBy : option string;
  edmIsShownAt : option string;
  score : option Q
}.
Record Body : Type := { items : option (list Item) }.
End Europeana.

(** PLOS: [GET /search] with [q], [wt], [fl], [rows]. *)
Module Plos.
Record Params : Type := { q : string; wt : string; fl : string; rows : nat }.
Record Doc : Type := {
  title_display : option string;
  score : option Q;
  id : option string
}.
Record Response : Type := { docs : option (list Doc) }.
Record Body : Type := { response : option Response }.
End Plos.

(** The record sent to the frontend. *)
Record ResultRecord : Type := {
  title : string;
  source : string;
  original_relevance_score : Q;
  link : string;
  normalized_score : Q
}.

(** [result.normalized_score = v] *)
Definition set_normalized_score (result : ResultRecord) (v : Q) : ResultRecord :=
  {| title := title result;
     source := source result;
     original_relevance_score := original_relevance_score result;
     link := link result;
     normalized_score := v |}.

(** What the handler sends back: [res.status(400).json({ error })] or
    [res.json(allResults)]. *)
Inductive HttpResponse : Type :=
| status400 (error : string)
| json (body : list ResultRecord).

(** The process environment and the external services. *)
Record World : Type := {
  EUROPEANA_API_KEY : string;
  datamuse : Datamuse.Params -> Settled Datamuse.Body;
  europeana : Europeana.Params -> Settled Europeana.Body;
  plos : Plos.Params -> Settled Plos.Body
}.

(** An outbound request. *)
Inductive Request : Type :=
| GetDatamuse (p : Datamuse.Params)
| GetEuropeana (p : Europeana.Params)
| GetPlos (p : Plos.Params).

(** A request to a content provider (a connector invocation). *)
Definition is_provider_request (r : Request) : bool :=
  match r with
  | GetDatamuse _ => false
  | GetEuropeana _ | GetPlos _ => true
  end.

(** ** Computations that issue requests *)

Definition IO (A : Type) : Type := (A * list Request)%type.

Definition ret {A : Type} (a : A) : IO A := (a, []).

Definition bind {A B : Type} (m : IO A) (k : A -> IO B) : IO B :=
  let (a, t1) := m in
  let (b, t2) := k a in
  (b, (t1 ++ t2)%list).

Notation "x <- m ;; k" := (bind m (fun x => k))
  (at level 61, m at next level, right associativity).

(** The requests are issued in array order; [Promise.all] and
    [Promise.allSettled] give the outcomes in that same order. *)
Fixpoint Promise_all {A : Type} (ps : list (IO A)) : IO (list A) :=
  match ps with
  | [] => ret []
  | p :: ps' => a <- p ;; rest <- Promise_all ps' ;; ret (a :: rest)
  end.

Definition value_of {A : Type} (m : IO A) : A := fst m.
Definition requests_of {A : Type} (m : IO A) : list Request := snd m.

Definition axios_get_datamuse (w : World) (p : Datamuse.Params)
  : IO (Settled Datamuse.Body) := (datamuse w p, [GetDatamuse p]).

Definition axios_get_europeana (w : World) (p : Europeana.Params)
  : IO (Settled Europeana.Body) := (europeana w p, [GetEuropeana p]).

Definition axios_get_plos (w : World) (p : Plos.Params)
  : IO (Settled Plos.Body) := (plos w p, [GetPlos p]).

(** ** The server *)

(** ['Sin Título'] (the accented letter is code unit 237). *)
Definition sin_titulo : string := "Sin T" ++ String (ascii_of_nat 237) "tulo".

(** ['El parámetro de consulta "q" es requerido.'] *)
Definition error_q_requerido : string :=
  let quote := String (ascii_of_nat 34) "" in
  "El par" ++ String (ascii_of_nat 225) "metro de consulta "
  ++ quote ++ "q" ++ quote ++ " es requerido.".

(** The parameters of the DataMuse request: [?ml=<term>&max=5]. *)
Definition datamuse_params (term : string) : Datamuse.Params :=
  {| Datamuse.ml := term; Datamuse.max := 5 |}.

(** [expandQuery(term)]: the words DataMuse relates to [term]; the empty
    array when the request fails or the body cannot be mapped (the [catch]
    branch). *)
Definition expandQuery (w : World) (term : string) : IO (list string) :=
  settled <- axios_get_datamuse w (datamuse_params term) ;;
  ret match settled with
      | fulfilled response =>
          match data response with
          | Some words => map Datamuse.word words
          | None => []
          end
      | rejected error => []
      end.

(** [userQuery.split(' ').filter(term => term.trim() !== '')] *)
Definition originalTerms_of (userQuery : string) : list string :=
  filter (fun term => negb (JS.trim term =? "")) (JS.split " " userQuery).

(** One query group: the term and its synonyms without duplicates, in
    parentheses and joined by OR when there is more than one. *)
Definition queryGroup (term : string) (synonyms : list string) : string :=
  let groupTerms := JS.new_Set (term :: synonyms) in
  if (1 <? List.length groupTerms)%nat
  then "(" ++ JS.join " OR " groupTerms ++ ")"
  else term.

(** [originalTerms.map((term, index) => ...)].  [allSynonyms] has one entry
    per term (see [expansion_length]), so [allSynonyms[index]] is always
    defined. *)
Definition queryGroups_of (originalTerms : list string)
  (allSynonyms : list (list string)) : list string :=
  JS.mapi (fun term index => queryGroup term (nth index allSynonyms []))
          originalTerms.

Definition queryString_of (originalTerms : list string)
  (allSynonyms : list (list string)) : string :=
  JS.join " AND " (queryGroups_of originalTerms allSynonyms).

(** The mapping of one Europeana item. *)
Definition europeanaItem (item : Europeana.Item) : ResultRecord :=
  let title :=
    match Europeana.title item with
    | Some (first :: _) => first
    | Some [] | None => sin_titulo
    end in
  let link :=
    JS.or_else (Europeana.edmIsShownBy item)
               (JS.or_else (Europeana.edmIsShownAt item) "#") in
  let score := JS.num_or_else (Europeana.score item) 0 in
  {| title := title;
     source := "Europeana";
     original_relevance_score := score;
     link := link;
     normalized_score := 0 |}.

(** The mapping of one PLOS document. *)
Definition plosItem (doc : Plos.Doc) : ResultRecord :=
  let title := JS.or_else (Plos.title_display doc) sin_titulo in
  let score := JS.num_or_else (Plos.score doc) 0 in
  let link :=
    match Plos.id doc with
    | Some id =>
        if JS.truthy id
        then "https://journals.plos.org/plosone/article?id=" ++ id
        else "#"
    | None => "#"
    end in
  {| title := title;
     source := "PLOS";
     original_relevance_score := score;
     link := link;
     normalized_score := 0 |}.

(** 3.1: the records of the Europeana outcome; none when the promise was
    rejected or the body lacks [data] or [items].  Here [items], when
    present, is an array of objects; [europeanaItems_raw] below takes a body
    of any shape. *)
Definition europeanaItems (europeanaResult : Settled Europeana.Body)
  : list ResultRecord :=
  match europeanaResult with
  | fulfilled value =>
      match data value with
      | Some body =>
          match Europeana.items body with
          | Some items => map europeanaItem items
          | None => []
          end
      | None => []
      end
  | rejected reason => []
  end.

(** 3.2: the records of the PLOS outcome; [docs], when present, is an array
    of objects here, and [plosItems_raw] below takes a body of any shape. *)
Definition plosItems (plosResult : Settled Plos.Body) : list ResultRecord :=
  match plosResult with
  | fulfilled value =>
      match data value with
      | Some body =>
          match Plos.response body with
          | Some response =>
              match Plos.docs response with
              | Some docs => map plosItem docs
              | None => []
              end
          | None => []
          end
      | None => []
      end
  | rejected reason => []
  end.

Definition maxScore_of (allResults : list ResultRecord) : Q :=
  JS.Math_max0 (map original_relevance_score allResults).

Definition divisor_of (maxScore : Q) : Q :=
  if JS.gt maxScore 0 then maxScore else 1.

(** 4: normalization of the scores, when there is a record at all. *)
Definition normalize (allResults : list ResultRecord) : list ResultRecord :=
  if (0 <? List.length allResults)%nat then
    let maxScore := maxScore_of allResults in
    let divisor := divisor_of maxScore in
    map (fun result =>
           set_normalized_score result
             (original_relevance_score result / divisor))
        allResults
  else allResults.

(** 4.1: [(a, b) => b.normalized_score - a.normalized_score] *)
Definition by_normalized_score_desc (a b : ResultRecord) : Q :=
  normalized_score b - normalized_score a.

Definition rank (allResults : list ResultRecord) : list ResultRecord :=
  JS.sort by_normalized_score_desc allResults.

(** The parameters of the two provider requests. *)
Definition europeana_params (w : World) (queryString : string)
  : Europeana.Params :=
  {| Europeana.query := queryString;
     Europeana.wskey := EUROPEANA_API_KEY w;
     Europeana.rows := 20 |}.

Definition plos_params (queryString : string) : Plos.Params :=
  {| Plos.q := queryString;
     Plos.wt := "json";
     Plos.fl := "title_display,score,id";
     Plos.rows := 20 |}.

(** 2 to 4: the federated search for a non-empty query string. *)
Definition federate (w : World) (queryString : string) : IO HttpResponse :=
  results <-
    ( europeanaResult <-
        axios_get_europeana w (europeana_params w queryString) ;;
      plosResult <- axios_get_plos w (plos_params queryString) ;;
      ret (europeanaResult, plosResult) ) ;;
  let allResults := [] in
  let (europeanaResult, plosResult) := results in
  let allResults := (allResults ++ europeanaItems europeanaResult)%list in
  let allResults := (allResults ++ plosItems plosResult)%list in
  let allResults := normalize allResults in
  let allResults := rank allResults in
  ret (json allResults).

(** 1: the query builder, then the short-circuit on an empty query string. *)
Definition pipeline (w : World) (userQuery : string) : IO HttpResponse :=
  let originalTerms := originalTerms_of userQuery in
  let expansionPromises := map (expandQuery w) originalTerms in
  allSynonyms <- Promise_all expansionPromises ;;
  let queryString := queryString_of originalTerms allSynonyms in
  if negb (JS.truthy queryString) then ret (json [])
  else federate w queryString.

(** [app.get('/search', ...)], on [req.query.q]. *)
Definition search (w : World) (q : option string) : IO HttpResponse :=
  match q with
  | None => ret (status400 error_q_requerido)
  | Some userQuery =>
      if negb (JS.truthy userQuery) then ret (status400 error_q_requerido)
      else pipeline w userQuery
  end.

(** ** Definitions used to state the properties *)

Fixpoint string_forallb (p : ascii -> bool) (s : string) : bool :=
  match s with
  | EmptyString => true
  | String c s' => p c && string_forallb p s'
  end.

(** The string has only white space (the empty string has). *)
Definition all_white_space (s : string) : bool :=
  string_forallb JS.is_white_space s.

(** The string has no occurrence of [c]. *)
Definition free_of (c : ascii) (s : string) : bool :=
  string_forallb (fun c' => negb (Ascii.eqb c' c)) s.

(** The specification's wording, to compare with [originalTerms_of]: the
    pieces of the raw query between white-space characters, the empty pieces
    dropped. *)
Fixpoint split_where (p : ascii -> bool) (s : string) : list string :=
  match s with
  | EmptyString => [EmptyString]
  | String c s' =>
      if p c then EmptyString :: split_where p s'
      else match split_where p s' with
           | tok :: rest => String c tok :: rest
           | [] => [String c EmptyString]
           end
  end.

Definition whitespace_terms (rawQuery : string) : list string :=
  filter (fun tok => negb (tok =? "")) (split_where JS.is_white_space rawQuery).


(** The specification's wording, to compare with [JS.new_Set]: the list
    without its duplicates, each member at the place where it was first
    seen. *)
Fixpoint dedup_first (l : list string) : list string :=
  match l with
  | [] => []
  | x :: l' => x :: filter (fun y => negb (y =? x)) (dedup_first l')
  end.

(** The specification's wording, to compare with [queryGroup]: a group of
    one member is rendered as that member, a larger one as its members joined
    by OR, in parentheses. *)
Definition render_group (members : list string) : string :=
  match members with
  | [member] => member
  | _ => "(" ++ String.concat " OR " members ++ ")"
  end.

Definition spec_queryString (terms : list (string * list string)) : string :=
  String.concat " AND "
    (map (fun ts => render_group (dedup_first (fst ts :: snd ts))) terms).

(** The synonyms the handler gets for a term, and the query string it
    builds for a raw query. *)
Definition synonyms_of (w : World) (term : string) : list string :=
  value_of (expandQuery w term).

Definition queryString_for (w : World) (userQuery : string) : string :=
  let originalTerms := originalTerms_of userQuery in
  queryString_of originalTerms (map (synonyms_of w) originalTerms).

(** The expansion of a term failed: the request was rejected, or its body
    is not an array of words. *)
Definition expansion_failed (settled : Settled Datamuse.Body) : bool :=
  match settled with
  | fulfilled response =>
      match data response with Some _ => false | None => true end
  | rejected _ => true
  end.

(** A provider failed: its request was rejected, or the body has not the
    expected shape. *)
Definition europeana_failed (settled : Settled Europeana.Body) : bool :=
  match settled with
  | fulfilled value =>
      match data value with
      | Some body =>
          match Europeana.items body with Some _ => false | None => true end
      | None => true
      end
  | rejected _ => true
  end.

Definition plos_failed (settled : Settled Plos.Body) : bool :=
  match settled with
  | fulfilled value =>
      match data value with
      | Some body =>
          match Plos.response body with
          | Some response =>
              match Plos.docs response with Some _ => false | None => true end
          | None => true
          end
      | None => true
      end
  | rejected _ => true
  end.

(** A provider answer of the expected shape with the given records. *)
Definition europeana_ok (items : list Europeana.Item) : Settled Europeana.Body :=
  fulfilled {| data := Some {| Europeana.items := Some items |} |}.

Definition plos_ok (docs : list Plos.Doc) : Settled Plos.Body :=
  fulfilled
    {| data := Some {| Plos.response := Some {| Plos.docs := Some docs |} |} |}.

Definition datamuse_ok (words : list string) : Settled Datamuse.Body :=
  fulfilled
    {| data := Some (map (fun s => {| Datamuse.word := s;
                                      Datamuse.score := 0 |}) words) |}.

(** The world [w] with another answer of a provider. *)
Definition with_europeana (w : World)
  (answer : Europeana.Params -> Settled Europeana.Body) : World :=
  {| EUROPEANA_API_KEY := EUROPEANA_API_KEY w;
     datamuse := datamuse w;
     europeana := answer;
     plos := plos w |}.

Definition with_plos (w : World)
  (answer : Plos.Params -> Settled Plos.Body) : World :=
  {| EUROPEANA_API_KEY := EUROPEANA_API_KEY w;
     datamuse := datamuse w;
     europeana := europeana w;
     plos := answer |}.

Definition with_datamuse (w : World)
  (answer : Datamuse.Params -> Settled Datamuse.Body) : World :=
  {| EUROPEANA_API_KEY := EUROPEANA_API_KEY w;
     datamuse := answer;
     europeana := europeana w;
     plos := plos w |}.

(** A world with no network: every request is rejected. *)
Definition network_error : AxiosError :=
  {| response := None; message := "Network Error" |}.

Definition offline : World :=
  {| EUROPEANA_API_KEY := "key";
     datamuse := fun _ => rejected network_error;
     europeana := fun _ => rejected network_error;
     plos := fun _ => rejected network_error |}.

(** The content of a record: all but the normalized score. *)
Definition content (r : ResultRecord) : string * string * Q * string :=
  (title r, source r, original_relevance_score r, link r).

(** The service keeps to the [max] it is asked for. *)
Definition honours_max (w : World) : Prop :=
  forall p words,
    datamuse w p = fulfilled {| data := Some words |} ->
    (List.length words <= Datamuse.max p)%nat.

(** The service reports no word twice. *)
Definition distinct_words (w : World) : Prop :=
  forall p words,
    datamuse w p = fulfilled {| data := Some words |} ->
    NoDup (map Datamuse.word words).

(** A world whose lexical service answers six words, one of them twice,
    whatever it is asked. *)
Definition talkative : World :=
  with_datamuse offline
    (fun _ => datamuse_ok ["feline"; "kitty"; "kitten"; "puss"; "tom"; "feline"]).

(** A list in descending order of a key, and the test that selects the
    members with a given key. *)
Definition descending {A : Type} (key : A -> Q) (l : list A) : Prop :=
  StronglySorted (fun a b => (key b <= key a)%Q) l.

Definition has_key {A : Type} (key : A -> Q) (q : Q) (a : A) : bool :=
  Qeq_bool (key a) q.

(** The comparator [(a, b) => key(b) - key(a)]. *)
Definition desc_by {A : Type} (key : A -> Q) (a b : A) : Q :=
  (key b - key a)%Q.

(** A record of score 1/2, as PLOS may report it. *)
Definition half_scored : ResultRecord :=
  {| title := "t"; source := "PLOS"; original_relevance_score := 1 # 2;
     link := "#"; normalized_score := 0 |}.

(** The scenario of the specification: cat has the synonym feline, dog has
    none; Europeana reports one item of score 10 and PLOS one document of
    score 5. *)
Definition scenario : World :=
  {| EUROPEANA_API_KEY := "key";
     datamuse := fun p =>
       if Datamuse.ml p =? "cat" then datamuse_ok ["feline"]
       else datamuse_ok [];
     europeana := fun _ =>
       europeana_ok
         [ {| Europeana.title := Some ["A"];
              Europeana.edmIsShownBy := Some "http://a";
              Europeana.edmIsShownAt := None;
              Europeana.score := Some 10%Q |} ];
     plos := fun _ =>
       plos_ok
         [ {| Plos.title_display := Some "B";
              Plos.score := Some 5%Q;
              Plos.id := Some "10.1371/b" |} ] |}.

(** A world where Europeana reports one item whose title array holds the
    empty string, and nothing else answers. *)
Definition blank_title_item : Europeana.Item :=
  {| Europeana.title := Some [""];
     Europeana.edmIsShownBy := None;
     Europeana.edmIsShownAt := None;
     Europeana.score := Some 1%Q |}.

Definition blank_title_world : World :=
  with_europeana offline (fun _ => europeana_ok [blank_title_item]).

(** The outcomes of the two provider requests the handler makes for a raw
    query. *)
Definition europeana_outcome (w : World) (userQuery : string)
  : Settled Europeana.Body :=
  europeana w (europeana_params w (queryString_for w userQuery)).

Definition plos_outcome (w : World) (userQuery : string) : Settled Plos.Body :=
  plos w (plos_params (queryString_for w userQuery)).

(** A world where only PLOS answers, with one document. *)
Definition plos_only : World :=
  with_plos offline
    (fun _ => plos_ok [ {| Plos.title_display := Some "B";
                           Plos.score := Some 5%Q;
                           Plos.id := None |} ]).

(** A world where only Europeana answers, with one item. *)
Definition europeana_only : World :=
  with_europeana offline
    (fun _ => europeana_ok [ {| Europeana.title := Some ["A"];
                                Europeana.edmIsShownBy := None;
                                Europeana.edmIsShownAt := Some "http://a";
                                Europeana.score := Some 10%Q |} ]).

(** The record made of a content and a normalized score. *)
Definition record_of (c : string * string * Q * string) (v : Q) : ResultRecord :=
  let '(t, s, o, k) := c in
  {| title := t; source := s; original_relevance_score := o; link := k;
     normalized_score := v |}.

(** Records without a positive score, one of them negative. *)
Definition unscored : list ResultRecord :=
  [ {| title := "a"; source := "PLOS"; original_relevance_score := 0;
       link := "#"; normalized_score := 0 |};
    {| title := "b"; source := "Europeana";
       original_relevance_score := - (3 # 2);
       link := "#"; normalized_score := 0 |} ].


(** ** The frontend ([public/script.js]) *)

Module Frontend.

(** A cell of a table row, by the way its content was set. *)
Inductive Cell : Type :=
| innerHTML (html : string)
| textContent (text : string).

Definition Row : Type := list Cell.

(** The elements of the page the script works on: the value of the search
    field, whether each element carries the class [hidden], the text of the
    error message and the rows of the table body. *)
Record Page : Type := {
  searchInput_value : string;
  loadingMessage_hidden : bool;
  errorMessage_hidden : bool;
  errorMessage_textContent : string;
  resultsTable_hidden : bool;
  resultsTableBody : list Row;
  noResultsMessage_hidden : bool
}.

(** What comes of [fetch] and of reading the body: a rejection ([fetch]
    or [response.json()] throws an error with this message), a response that
    is not ok, whose body is an object that may hold an [error] string, or
    an ok response whose body is the array of records. *)
Inductive Fetched : Type :=
| fetch_failed (message : string)
| fetch_not_ok (status : nat) (error : option string)
| fetch_ok (data : list ResultRecord).

(** The browser around the script: the backend, by the query passed to
    [encodeURIComponent] in the URL of the request, and
    [Number.prototype.toFixed]. *)
Record Browser : Type := {
  fetch : string -> Fetched;
  toFixed : Q -> nat -> string
}.

Definition quote : string := String (ascii_of_nat 34) "".

(** ['Por favor, ingresa un término de búsqueda.'] *)
Definition por_favor : string :=
  "Por favor, ingresa un t" ++ String (ascii_of_nat 233) "rmino de b"
  ++ String (ascii_of_nat 250) "squeda.".

(** ['Ocurrió un error al realizar la búsqueda: '] *)
Definition ocurrio_un_error : string :=
  "Ocurri" ++ String (ascii_of_nat 243) " un error al realizar la b"
  ++ String (ascii_of_nat 250) "squeda: ".

(** [`Error del servidor: ${response.status}`] *)
Definition error_del_servidor (status : nat) : string :=
  "Error del servidor: " ++ NilEmpty.string_of_uint (Nat.to_uint status).

(** [displayError(message)] *)
Definition displayError (message : string) (page : Page) : Page :=
  {| searchInput_value := searchInput_value page;
     loadingMessage_hidden := loadingMessage_hidden page;
     errorMessage_hidden := false;
     errorMessage_textContent := message;
     resultsTable_hidden := true;
     resultsTableBody := resultsTableBody page;
     noResultsMessage_hidden := true |}.

(** The row inserted for one result: the title as a link, the source and
    the two scores with 4 decimals. *)
Definition row_of (b : Browser) (result : ResultRecord) : Row :=
  [ innerHTML ("<a href=" ++ quote ++ link result ++ quote
               ++ " target=" ++ quote ++ "_blank" ++ quote
               ++ " rel=" ++ quote ++ "noopener noreferrer" ++ quote ++ ">"
               ++ title result ++ "</a>");
    textContent (source result);
    textContent (toFixed b (original_relevance_score result) 4);
    textContent (toFixed b (normalized_score result) 4) ].

(** [performSearch], before the request: the table is emptied and hidden,
    the messages are hidden and the loading message is shown. *)
Definition start_loading (page : Page) : Page :=
  {| searchInput_value := searchInput_value page;
     loadingMessage_hidden := false;
     errorMessage_hidden := true;
     errorMessage_textContent := errorMessage_textContent page;
     resultsTable_hidden := true;
     resultsTableBody := [];
     noResultsMessage_hidden := true |}.

(** [loadingMessage.classList.add('hidden')] *)
Definition hide_loading (page : Page) : Page :=
  {| searchInput_value := searchInput_value page;
     loadingMessage_hidden := true;
     errorMessage_hidden := errorMessage_hidden page;
     errorMessage_textContent := errorMessage_textContent page;
     resultsTable_hidden := resultsTable_hidden page;
     resultsTableBody := resultsTableBody page;
     noResultsMessage_hidden := noResultsMessage_hidden page |}.

(** The [catch] branch, for an error of the given message. *)
Definition catch_error (message : string) (page : Page) : Page :=
  displayError (ocurrio_un_error ++ message) (hide_loading page).

(** [performSearch], once the request is settled. *)
Definition settle (b : Browser) (fetched : Fetched) (page : Page) : Page :=
  match fetched with
  | fetch_failed message => catch_error message page
  | fetch_not_ok status error =>
      catch_error (JS.or_else error (error_del_servidor status)) page
  | fetch_ok data =>
      let page := hide_loading page in
      if (List.length data =? 0)%nat then
        {| searchInput_value := searchInput_value page;
           loadingMessage_hidden := loadingMessage_hidden page;
           errorMessage_hidden := errorMessage_hidden page;
           errorMessage_textContent := errorMessage_textContent page;
           resultsTable_hidden := resultsTable_hidden page;
           resultsTableBody := resultsTableBody page;
           noResultsMessage_hidden := false |}
      else
        {| searchInput_value := searchInput_value page;
           loadingMessage_hidden := loadingMessage_hidden page;
           errorMessage_hidden := errorMessage_hidden page;
           errorMessage_textContent := errorMessage_textContent page;
           resultsTable_hidden := false;
           resultsTableBody :=
             (resultsTableBody page ++ map (row_of b) data)%list;
           noResultsMessage_hidden := noResultsMessage_hidden page |}
  end.

(** [performSearch()]: the queries sent to the backend, and the page when
    the search is over and no other event has come before the call resumed
    ([Session] below has the calls that overlap). *)
Definition performSearch (b : Browser) (page : Page) : Page * list string :=
  let query := JS.trim (searchInput_value page) in
  if negb (JS.truthy query) then (displayError por_favor page, [])
  else (settle b (fetch b query) (start_loading page), [query]).

(** The number of the three result panels (error message, table, message of
    no results) that are shown. *)
Definition panels_shown (page : Page) : nat :=
  (Nat.b2n (negb (errorMessage_hidden page))
   + Nat.b2n (negb (resultsTable_hidden page))
   + Nat.b2n (negb (noResultsMessage_hidden page)))%nat.

(** The browser whose backend is the server in the world [w]: the query
    reaches the handler as [req.query.q], the list of [res.json] comes back
    as the body of an ok response, and the error of status 400 as the body
    of a response that is not ok. *)
Definition connected (w : World) (toFixed : Q -> nat -> string) : Browser :=
  {| fetch := fun query =>
       match value_of (search w (Some query)) with
       | status400 error => fetch_not_ok 400 (Some error)
       | json body => fetch_ok body
       end;
     toFixed := toFixed |}.

(** A page as it may be after an earlier search, with a new input. *)
Definition page_with (input : string) : Page :=
  {| searchInput_value := input;
     loadingMessage_hidden := true;
     errorMessage_hidden := true;
     errorMessage_textContent := "";
     resultsTable_hidden := false;
     resultsTableBody := [[textContent "old"]];
     noResultsMessage_hidden := true |}.

End Frontend.

(** A stand-in for [toFixed] where the digits do not matter. *)
Definition no_digits (x : Q) (fractionDigits : nat) : string := "".

(** The world [w] where the lexical service answers that a term has no
    match, and is as in [w] for every other request. *)
Definition no_matches_for (term : string) (w : World) : World :=
  with_datamuse w
    (fun p => if Datamuse.ml p =? term then datamuse_ok [] else datamuse w p).

(** ** Provider bodies that are not of the expected shape *)

(** What may stand where the handler expects an array of objects, at
    [data.items] and at [data.response.docs]: nothing or a falsy value; an
    array, whose members are objects or [null]; or another truthy value (an
    object, a non-empty string, a number, [true]). *)
Inductive RawArray (A : Type) : Type :=
| raw_falsy
| raw_array (members : list (option A))
| raw_other.
Arguments raw_falsy {A}.
Arguments raw_array {A} _.
Arguments raw_other {A}.

(** [members.map(f)] for an [f] that reads properties of its argument: a
    [TypeError] at a member that is [null].  [None] is the exception. *)
Fixpoint map_objects {A B : Type} (f : A -> B) (members : list (option A))
  : option (list B) :=
  match members with
  | [] => Some []
  | None :: _ => None
  | Some a :: rest =>
      match map_objects f rest with
      | Some bs => Some (f a :: bs)
      | None => None
      end
  end.

(** The members that are objects. *)
Fixpoint objects {A : Type} (members : list (option A)) : list A :=
  match members with
  | [] => []
  | None :: rest => objects rest
  | Some a :: rest => a :: objects rest
  end.

Module RawEuropeana.
Record Body : Type := { items : RawArray Europeana.Item }.
End RawEuropeana.

Module RawPlos.
Record Response : Type := { docs : RawArray Plos.Doc }.
Record Body : Type := { response : option Response }.
End RawPlos.

(** The external services, with provider bodies of any shape. *)
Record RawWorld : Type := {
  raw_EUROPEANA_API_KEY : string;
  raw_datamuse : Datamuse.Params -> Settled Datamuse.Body;
  raw_europeana : Europeana.Params -> Settled RawEuropeana.Body;
  raw_plos : Plos.Params -> Settled RawPlos.Body
}.

(** What becomes of a request to the handler: a response is sent, or an
    exception leaves the handler and [res.json] is never reached. *)
Inductive Handled : Type :=
| sent (response : HttpResponse)
| uncaught.

(** 3.1 on a body of any shape: [items] passes the test of line 115 when
    it is truthy, and [items.map] throws when [items] is not an array or has
    a [null] member. *)
Definition europeanaItems_raw (europeanaResult : Settled RawEuropeana.Body)
  : option (list ResultRecord) :=
  match europeanaResult with
  | fulfilled value =>
      match data value with
      | Some body =>
          match RawEuropeana.items body with
          | raw_falsy => Some []
          | raw_array members => map_objects europeanaItem members
          | raw_other => None
          end
      | None => Some []
      end
  | rejected reason => Some []
  end.

(** 3.2 on a body of any shape. *)
Definition plosItems_raw (plosResult : Settled RawPlos.Body)
  : option (list ResultRecord) :=
  match plosResult with
  | fulfilled value =>
      match data value with
      | Some body =>
          match RawPlos.response body with
          | Some response =>
              match RawPlos.docs response with
              | raw_falsy => Some []
              | raw_array members => map_objects plosItem members
              | raw_other => None
              end
          | None => Some []
          end
      | None => Some []
      end
  | rejected reason => Some []
  end.

(** The bodies read as bodies of the expected shape: an array is taken with
    its members that are objects, anything else as absent. *)
Definition expected_array {A : Type} (r : RawArray A) : option (list A) :=
  match r with
  | raw_array members => Some (objects members)
  | raw_falsy | raw_other => None
  end.

Definition expected_europeana (settled : Settled RawEuropeana.Body)
  : Settled Europeana.Body :=
  match settled with
  | fulfilled value =>
      fulfilled
        {| data :=
             match data value with
             | Some body =>
                 Some {| Europeana.items :=
                           expected_array (RawEuropeana.items body) |}
             | None => None
             end |}
  | rejected reason => rejected reason
  end.

Definition expected_plos (settled : Settled RawPlos.Body)
  : Settled Plos.Body :=
  match settled with
  | fulfilled value =>
      fulfilled
        {| data :=
             match data value with
             | Some body =>
                 Some {| Plos.response :=
                           match RawPlos.response body with
                           | Some response =>
                               Some {| Plos.docs :=
                                         expected_array
                                           (RawPlos.docs response) |}
                           | None => None
                           end |}
             | None => None
             end |}
  | rejected reason => rejected reason
  end.

Definition expected (rw : RawWorld) : World :=
  {| EUROPEANA_API_KEY := raw_EUROPEANA_API_KEY rw;
     datamuse := raw_datamuse rw;
     europeana := fun p => expected_europeana (raw_europeana rw p);
     plos := fun p => expected_plos (raw_plos rw p) |}.

Definition axios_get_raw_europeana (rw : RawWorld) (p : Europeana.Params)
  : IO (Settled RawEuropeana.Body) := (raw_europeana rw p, [GetEuropeana p]).

Definition axios_get_raw_plos (rw : RawWorld) (p : Plos.Params)
  : IO (Settled RawPlos.Body) := (raw_plos rw p, [GetPlos p]).

(** 2 to 4 of the handler with bodies of any shape: nothing catches the
    exception of a [map], so that no response is sent then. *)
Definition federate_raw (rw : RawWorld) (queryString : string) : IO Handled :=
  results <-
    ( europeanaResult <-
        axios_get_raw_europeana rw
          (europeana_params (expected rw) queryString) ;;
      plosResult <- axios_get_raw_plos rw (plos_params queryString) ;;
      ret (europeanaResult, plosResult) ) ;;
  let allResults := [] in
  let (europeanaResult, plosResult) := results in
  match europeanaItems_raw europeanaResult with
  | None => ret uncaught
  | Some europeanaItems =>
      let allResults := (allResults ++ europeanaItems)%list in
      match plosItems_raw plosResult with
      | None => ret uncaught
      | Some plosItems =>
          let allResults := (allResults ++ plosItems)%list in
          let allResults := normalize allResults in
          let allResults := rank allResults in
          ret (sent (json allResults))
      end
  end.

Definition pipeline_raw (rw : RawWorld) (userQuery : string) : IO Handled :=
  let originalTerms := originalTerms_of userQuery in
  let expansionPromises := map (expandQuery (expected rw)) originalTerms in
  allSynonyms <- Promise_all expansionPromises ;;
  let queryString := queryString_of originalTerms allSynonyms in
  if negb (JS.truthy queryString) then ret (sent (json []))
  else federate_raw rw queryString.

(** [app.get('/search', ...)] with provider bodies of any shape. *)
Definition search_raw (rw : RawWorld) (q : option string) : IO Handled :=
  match q with
  | None => ret (sent (status400 error_q_requerido))
  | Some userQuery =>
      if negb (JS.truthy userQuery)
      then ret (sent (status400 error_q_requerido))
      else pipeline_raw rw userQuery
  end.

(** The outcomes of the two provider requests for a raw query. *)
Definition raw_europeana_outcome (rw : RawWorld) (userQuery : string)
  : Settled RawEuropeana.Body :=
  raw_europeana rw
    (europeana_params (expected rw) (queryString_for (expected rw) userQuery)).

Definition raw_plos_outcome (rw : RawWorld) (userQuery : string)
  : Settled RawPlos.Body :=
  raw_plos rw (plos_params (queryString_for (expected rw) userQuery)).

(** Schema drift at Europeana: [items] has become an object, while PLOS
    answers one document.  And a body whose [items] holds a [null]. *)
Definition one_plos_doc : Settled RawPlos.Body :=
  fulfilled
    {| data :=
         Some {| RawPlos.response :=
                   Some {| RawPlos.docs :=
                             raw_array
                               [ Some {| Plos.title_display := Some "B";
                                         Plos.score := Some 5%Q;
                                         Plos.id := None |} ] |} |} |}.

Definition drifted (items : RawArray Europeana.Item) : RawWorld :=
  {| raw_EUROPEANA_API_KEY := "key";
     raw_datamuse := fun _ => rejected network_error;
     raw_europeana := fun _ =>
       fulfilled {| data := Some {| RawEuropeana.items := items |} |};
     raw_plos := fun _ => one_plos_doc |}.

(** The value is truthy and not an array of objects: [map] throws on it. *)
Definition not_objects {A : Type} (r : RawArray A) : bool :=
  match r with
  | raw_falsy => false
  | raw_array members =>
      existsb (fun m => match m with None => true | Some _ => false end)
              members
  | raw_other => true
  end.

(** The response came, and its [items] (or [docs]) passes the test of the
    handler without being an array of objects. *)
Definition malformed_europeana (settled : Settled RawEuropeana.Body) : bool :=
  match settled with
  | fulfilled value =>
      match data value with
      | Some body => not_objects (RawEuropeana.items body)
      | None => false
      end
  | rejected _ => false
  end.

Definition malformed_plos (settled : Settled RawPlos.Body) : bool :=
  match settled with
  | fulfilled value =>
      match data value with
      | Some body =>
          match RawPlos.response body with
          | Some response => not_objects (RawPlos.docs response)
          | None => false
          end
      | None => false
      end
  | rejected _ => false
  end.

(** ** The page over time *)

(** [performSearch] is asynchronous: it works on the page when it is
    called, awaits the backend, and works on the page again when it resumes,
    on the page as it is by then.  Other events may come in between, a second
    call of [performSearch] among them.  A state is the page and the queries
    of the calls that await; an event is an edit of the search field, a call
    of [performSearch] (a click on the button, or Enter in the field), or the
    resumption of one of the calls that await, with what came of its
    request. *)
Module Session.

Record State : Type := {
  page : Frontend.Page;
  pending : list string
}.

Inductive Event : Type :=
| input (value : string)
| search
| settle (k : nat) (fetched : Frontend.Fetched).

Definition with_input (value : string) (p : Frontend.Page) : Frontend.Page :=
  {| Frontend.searchInput_value := value;
     Frontend.loadingMessage_hidden := Frontend.loadingMessage_hidden p;
     Frontend.errorMessage_hidden := Frontend.errorMessage_hidden p;
     Frontend.errorMessage_textContent := Frontend.errorMessage_textContent p;
     Frontend.resultsTable_hidden := Frontend.resultsTable_hidden p;
     Frontend.resultsTableBody := Frontend.resultsTableBody p;
     Frontend.noResultsMessage_hidden := Frontend.noResultsMessage_hidden p |}.

Definition remove_nth {A : Type} (k : nat) (l : list A) : list A :=
  (firstn k l ++ skipn (S k) l)%list.

Definition step (b : Frontend.Browser) (s : State) (e : Event) : State :=
  match e with
  | input value =>
      {| page := with_input value (page s); pending := pending s |}
  | search =>
      let query := JS.trim (Frontend.searchInput_value (page s)) in
      if negb (JS.truthy query)
      then {| page := Frontend.displayError Frontend.por_favor (page s);
              pending := pending s |}
      else {| page := Frontend.start_loading (page s);
              pending := (pending s ++ [query])%list |}
  | settle k fetched =>
      match nth_error (pending s) k with
      | Some _ =>
          {| page := Frontend.settle b fetched (page s);
             pending := remove_nth k (pending s) |}
      | None => s
      end
  end.

Definition run (b : Frontend.Browser) (events : list Event) (s : State)
  : State :=
  fold_left (step b) events s.

(** A call of [performSearch] with no other call started or resumed before it
    resumes: the call, edits of the search field, and its resumption. *)
Definition alone (s : State) (values : list string)
  (fetched : Frontend.Fetched) : list Event :=
  (search :: map input values
   ++ [settle (List.length (pending s)) fetched])%list.

(** The table is shown only with rows in it, and the loading message only
    while a call awaits. *)
Definition steady (s : State) : Prop :=
  (Frontend.resultsTable_hidden (page s) = false ->
   Frontend.resultsTableBody (page s) <> [])
  /\ (Frontend.loadingMessage_hidden (page s) = false -> pending s <> []).

End Session.

(** ** Properties of the string built-ins *)

Lemma trimEnd_empty_iff (s : string) :
  JS.trimEnd s = "" <-> all_white_space s = true.
Proof.
  unfold all_white_space.
  induction s as [|c s IH]; simpl.
  - tauto.
  - destruct (JS.trimEnd s) eqn:E.
    + destruct (JS.is_white_space c); simpl.
      * tauto.
      * split; discriminate.
    + split; [discriminate|].
      intros H. apply andb_true_iff in H. destruct H as [_ H].
      apply IH in H. discriminate.
Qed.

Lemma all_white_space_trimStart (s : string) :
  all_white_space (JS.trimStart s) = all_white_space s.
Proof.
  unfold all_white_space.
  induction s as [|c s IH]; simpl; [reflexivity|].
  destruct (JS.is_white_space c) eqn:E; simpl.
  - exact IH.
  - rewrite E. reflexivity.
Qed.

Lemma trim_empty_iff (s : string) :
  JS.trim s = "" <-> all_white_space s = true.
Proof.
  unfold JS.trim. rewrite trimEnd_empty_iff.
  now rewrite all_white_space_trimStart.
Qed.

Lemma trim_test (term : string) :
  negb (JS.trim term =? "") = negb (all_white_space term).
Proof.
  f_equal. destruct (all_white_space term) eqn:E.
  - apply String.eqb_eq. now apply trim_empty_iff.
  - apply String.eqb_neq. intros H. apply trim_empty_iff in H. congruence.
Qed.

Lemma split_not_nil (sep : ascii) (s : string) : JS.split sep s <> [].
Proof.
  destruct s as [|c s]; simpl; [discriminate|].
  destruct (Ascii.eqb c sep); [discriminate|].
  destruct (JS.split sep s); discriminate.
Qed.

(** Joining the pieces with the separator gives the string back. *)
Lemma join_split (sep : ascii) (s : string) :
  JS.join (String sep "") (JS.split sep s) = s.
Proof.
  unfold JS.join.
  induction s as [|c s IH]; simpl; [reflexivity|].
  destruct (Ascii.eqb c sep) eqn:E.
  - apply Ascii.eqb_eq in E. subst c.
    pose proof (split_not_nil sep s) as Hn.
    destruct (JS.split sep s) as [|tok rest]; [contradiction|].
    simpl in *. now rewrite IH.
  - pose proof (split_not_nil sep s) as Hn.
    destruct (JS.split sep s) as [|tok rest]; [contradiction|].
    simpl in *. destruct rest; simpl in *; now rewrite IH.
Qed.

(** No piece holds the separator. *)
Lemma split_free_of (sep : ascii) (s : string) :
  Forall (fun tok => free_of sep tok = true) (JS.split sep s).
Proof.
  unfold free_of.
  induction s as [|c s IH]; simpl.
  - repeat constructor.
  - destruct (Ascii.eqb c sep) eqn:E.
    + constructor; [reflexivity|exact IH].
    + destruct (JS.split sep s) as [|tok rest].
      * repeat constructor. simpl. now rewrite E.
      * inversion IH; subst. constructor; [|assumption].
        simpl. rewrite E. simpl. assumption.
Qed.

(** A string without the separator is one piece, and the pieces of a
    joined array whose members have no separator are its members: the
    decomposition of a string into such pieces is unique. *)
Lemma split_free (sep : ascii) (tok : string) :
  free_of sep tok = true -> JS.split sep tok = [tok].
Proof.
  unfold free_of. induction tok as [|c tok IH]; simpl; [reflexivity|].
  intros H. apply andb_true_iff in H. destruct H as [Hc Htok].
  apply negb_true_iff in Hc. rewrite Hc, (IH Htok). reflexivity.
Qed.

Lemma split_app_sep (sep : ascii) (tok s : string) :
  free_of sep tok = true ->
  JS.split sep (tok ++ String sep s) = tok :: JS.split sep s.
Proof.
  unfold free_of. induction tok as [|c tok IH]; simpl.
  - intros _. now rewrite Ascii.eqb_refl.
  - intros H. apply andb_true_iff in H. destruct H as [Hc Htok].
    apply negb_true_iff in Hc. rewrite Hc, (IH Htok). reflexivity.
Qed.

Lemma split_join (sep : ascii) (tokens : list string) :
  tokens <> [] ->
  Forall (fun tok => free_of sep tok = true) tokens ->
  JS.split sep (JS.join (String sep "") tokens) = tokens.
Proof.
  unfold JS.join.
  induction tokens as [|tok tokens IH]; [congruence|].
  intros _ Hfree. inversion Hfree as [|? ? Htok Htokens]; subst.
  destruct tokens as [|tok' tokens].
  - simpl. now apply split_free.
  - cbn [String.concat]. cbn [append].
    rewrite (split_app_sep sep tok _ Htok). f_equal.
    apply IH; [discriminate|assumption].
Qed.

(** When the separator is the only character of the string that satisfies
    [p], splitting at [p] is splitting at the separator. *)
Lemma split_where_split (p : ascii -> bool) (sep : ascii) (s : string) :
  string_forallb (fun c => Bool.eqb (p c) (Ascii.eqb c sep)) s = true ->
  split_where p s = JS.split sep s.
Proof.
  induction s as [|c s IH]; simpl; [reflexivity|].
  intros H. apply andb_true_iff in H. destruct H as [Hc Hs].
  apply Bool.eqb_prop in Hc. rewrite Hc, (IH Hs). reflexivity.
Qed.

(** The characters of the pieces are characters of the string. *)
Lemma split_forallb (p : ascii -> bool) (sep : ascii) (s : string) :
  string_forallb p s = true ->
  Forall (fun tok => string_forallb p tok = true) (JS.split sep s).
Proof.
  induction s as [|c s IH]; simpl.
  - repeat constructor.
  - intros H. apply andb_true_iff in H. destruct H as [Hc Hs].
    specialize (IH Hs).
    destruct (Ascii.eqb c sep).
    + constructor; [reflexivity|exact IH].
    + destruct (JS.split sep s) as [|tok rest].
      * repeat constructor. simpl. now rewrite Hc.
      * inversion IH; subst. constructor; [|assumption].
        simpl. now rewrite Hc.
Qed.

(** ** Splitting the raw query into terms *)

Lemma all_white_space_without_sep (tok : string) :
  string_forallb
    (fun c => Bool.eqb (JS.is_white_space c) (Ascii.eqb c " ")) tok = true ->
  free_of " " tok = true ->
  all_white_space tok = (tok =? "").
Proof.
  destruct tok as [|c tok]; simpl; [reflexivity|].
  unfold free_of, all_white_space. simpl.
  intros H1 H2.
  apply andb_true_iff in H1. destruct H1 as [H1 _].
  apply andb_true_iff in H2. destruct H2 as [H2 _].
  apply Bool.eqb_prop in H1. rewrite H1.
  apply negb_true_iff in H2. rewrite H2. reflexivity.
Qed.

Lemma originalTerms_filter (userQuery : string) :
  originalTerms_of userQuery =
  filter (fun tok => negb (all_white_space tok)) (JS.split " " userQuery).
Proof.
  unfold originalTerms_of. apply filter_ext. intros tok. apply trim_test.
Qed.

(** A term is not empty, holds no SPACE and has a character that is not
    white space. *)
Lemma originalTerms_shape (userQuery : string) :
  Forall (fun term =>
            term <> "" /\ free_of " " term = true
            /\ all_white_space term = false)
         (originalTerms_of userQuery).
Proof.
  rewrite originalTerms_filter. apply Forall_forall. intros term Hin.
  apply filter_In in Hin. destruct Hin as [Hin Hws].
  apply negb_true_iff in Hws.
  pose proof (split_free_of " " userQuery) as Hfree.
  rewrite Forall_forall in Hfree.
  repeat split; [|now apply Hfree|assumption].
  intros ->. discriminate.
Qed.

(** C8, as the code has it: the raw query is cut at every SPACE character
    (and only there), which gives its pieces without SPACE, the only ones
    that joined by SPACE give the raw query back; the pieces that are empty
    or all white space are dropped, the others are the terms, in order.  Hence a term is never
    empty, holds no SPACE and has a character that is not white space; and
    when SPACE is the only white space of the raw query, the terms are its
    maximal runs of characters that are not white space. *)
Theorem originalTerms_space_pieces (userQuery : string) :
  (exists tokens,
      (tokens <> []
       /\ JS.join " " tokens = userQuery
       /\ Forall (fun tok => free_of " " tok = true) tokens)
      /\ (forall others,
            others <> [] ->
            JS.join " " others = userQuery ->
            Forall (fun tok => free_of " " tok = true) others ->
            others = tokens)
      /\ originalTerms_of userQuery
         = filter (fun tok => negb (all_white_space tok)) tokens)
  /\ Forall (fun term =>
               term <> "" /\ free_of " " term = true
               /\ all_white_space term = false)
            (originalTerms_of userQuery)
  /\ (string_forallb
        (fun c => Bool.eqb (JS.is_white_space c) (Ascii.eqb c " "))
        userQuery = true ->
      originalTerms_of userQuery = whitespace_terms userQuery).
Proof.
  split; [|split].
  - exists (JS.split " " userQuery). split; [|split].
    + split; [apply split_not_nil|].
      split; [apply join_split|apply split_free_of].
    + intros others Hne Hjoin Hfree. rewrite <- Hjoin.
      symmetry. now apply split_join.
    + apply originalTerms_filter.
  - apply originalTerms_shape.
  - intros Hsp. rewrite originalTerms_filter. unfold whitespace_terms.
    rewrite (split_where_split _ " " _ Hsp).
    apply filter_ext_in. intros tok Hin. f_equal.
    apply all_white_space_without_sep.
    + pose proof (split_forallb _ " " _ Hsp) as H.
      rewrite Forall_forall in H. now apply H.
    + pose proof (split_free_of " " userQuery) as H.
      rewrite Forall_forall in H. now apply H.
Qed.

(** C8 as stated fails on a TAB: the raw query [a<TAB>b] has the two runs
    [a] and [b] of characters that are not white space, and the handler makes
    one term of it, with the TAB inside. *)
Example originalTerms_keeps_tab :
  JS.is_white_space (ascii_of_nat 9) = true
  /\ whitespace_terms (String "a" (String (ascii_of_nat 9) "b")) = ["a"; "b"]
  /\ originalTerms_of (String "a" (String (ascii_of_nat 9) "b"))
     = [String "a" (String (ascii_of_nat 9) "b")].
Proof.
  repeat split; reflexivity.
Qed.

(** ** Building the query string *)

Lemma Set_has_true_iff (s : list string) (x : string) :
  JS.Set_has s x = true <-> In x s.
Proof.
  unfold JS.Set_has. rewrite existsb_exists. split.
  - intros [y [Hin Heq]]. apply String.eqb_eq in Heq. now subst.
  - intros Hin. exists x. split; [assumption|apply String.eqb_refl].
Qed.

Lemma Set_has_app (s t : list string) (x : string) :
  JS.Set_has (s ++ t) x = JS.Set_has s x || JS.Set_has t x.
Proof. unfold JS.Set_has. apply existsb_app. Qed.

Lemma filter_filter {A : Type} (f g : A -> bool) (l : list A) :
  filter f (filter g l) = filter (fun x => g x && f x) l.
Proof.
  induction l as [|x l IH]; simpl; [reflexivity|].
  destruct (g x); simpl; [destruct (f x)|]; now rewrite IH.
Qed.

(** The set built from an array, started from the members [acc]. *)
Lemma fold_Set_add (l acc : list string) :
  fold_left JS.Set_add l acc
  = (acc ++ filter (fun y => negb (JS.Set_has acc y)) (dedup_first l))%list.
Proof.
  revert acc. induction l as [|x l IH]; intros acc; simpl.
  - now rewrite app_nil_r.
  - rewrite IH. unfold JS.Set_add.
    destruct (JS.Set_has acc x) eqn:E; simpl.
    + f_equal. rewrite filter_filter. apply filter_ext. intros y.
      destruct (String.eqb_spec y x) as [->|Hne]; simpl.
      * now rewrite E.
      * reflexivity.
    + rewrite <- app_assoc. simpl. do 2 f_equal.
      rewrite filter_filter. apply filter_ext. intros y.
      rewrite Set_has_app. unfold JS.Set_has at 2. simpl.
      rewrite orb_false_r, negb_orb. apply andb_comm.
Qed.

(** [[...new Set(arr)]] removes the duplicates and keeps the order in which
    the members were first seen. *)
Lemma new_Set_dedup_first (arr : list string) :
  JS.new_Set arr = dedup_first arr.
Proof.
  unfold JS.new_Set. rewrite fold_Set_add. simpl.
  induction (dedup_first arr) as [|x l IH]; simpl; congruence.
Qed.

Lemma dedup_first_In (l : list string) (x : string) :
  In x (dedup_first l) <-> In x l.
Proof.
  induction l as [|y l IH]; simpl; [tauto|].
  rewrite filter_In, IH, negb_true_iff, String.eqb_neq.
  destruct (String.eqb_spec x y) as [->|Hne]; intuition congruence.
Qed.

Lemma dedup_first_NoDup (l : list string) : NoDup (dedup_first l).
Proof.
  induction l as [|y l IH]; simpl; constructor.
  - rewrite filter_In, negb_true_iff, String.eqb_neq. tauto.
  - now apply NoDup_filter.
Qed.

(** A group is rendered as the specification words it. *)
Lemma queryGroup_render (term : string) (synonyms : list string) :
  queryGroup term synonyms = render_group (dedup_first (term :: synonyms)).
Proof.
  unfold queryGroup, JS.join. rewrite new_Set_dedup_first. simpl.
  destruct (filter _ (dedup_first synonyms)); reflexivity.
Qed.

Lemma queryGroups_from (terms : list (string * list string))
  (before : list (list string)) :
  JS.mapi_from
    (fun term index => queryGroup term (nth index (before ++ map snd terms) []))
    (List.length before) (map fst terms)
  = map (fun ts => queryGroup (fst ts) (snd ts)) terms.
Proof.
  revert before. induction terms as [|[t ss] terms IH]; intros before; simpl.
  - reflexivity.
  - f_equal.
    + rewrite app_nth2, Nat.sub_diag by lia. reflexivity.
    + specialize (IH (before ++ [ss])%list).
      rewrite length_app, <- app_assoc in IH. simpl in IH.
      rewrite Nat.add_1_r in IH. exact IH.
Qed.

(** The query string of the terms, each with its synonyms, is the one the
    specification words. *)
Lemma queryString_of_spec (terms : list (string * list string)) :
  queryString_of (map fst terms) (map snd terms) = spec_queryString terms.
Proof.
  unfold queryString_of, queryGroups_of, JS.mapi, spec_queryString, JS.join.
  f_equal. pose proof (queryGroups_from terms []) as H.
  simpl in H. rewrite H.
  apply map_ext. intros [t ss]. apply queryGroup_render.
Qed.

(** C2: for the terms in their order, each with its synonyms, the query
    string is the groups joined by AND, where the group of a term is the term
    followed by its synonyms, without duplicates and in first-seen order, and
    is rendered as the bare term when it has one member and as the members
    joined by OR, in parentheses, when it has more.  The members of a group
    are the term and its synonyms, each once. *)
Theorem queryString_groups (terms : list (string * list string)) :
  queryString_of (map fst terms) (map snd terms) = spec_queryString terms
  /\ Forall (fun ts =>
               NoDup (dedup_first (fst ts :: snd ts))
               /\ forall x, In x (dedup_first (fst ts :: snd ts))
                            <-> x = fst ts \/ In x (snd ts))
            terms.
Proof.
  split.
  - apply queryString_of_spec.
  - apply Forall_forall. intros [t ss] _. split.
    + apply dedup_first_NoDup.
    + intros x. rewrite dedup_first_In. simpl. intuition congruence.
Qed.

(** So is the query string the handler builds for a raw query, from the
    terms of the raw query and the synonyms found for them. *)
Corollary queryString_for_spec (w : World) (userQuery : string) :
  queryString_for w userQuery
  = spec_queryString
      (map (fun term => (term, synonyms_of w term)) (originalTerms_of userQuery)).
Proof.
  rewrite <- queryString_of_spec, !map_map. unfold queryString_for. simpl.
  now rewrite map_id.
Qed.

(** The scenario of the specification: "cat dog" with the expansions
    cat -> feline and dog -> nothing. *)
Example queryString_cat_dog :
  queryString_of ["cat"; "dog"] [["feline"]; []] = "(cat OR feline) AND dog".
Proof. reflexivity. Qed.

(** ** The handler, stage by stage *)

Lemma expandQuery_requests (w : World) (term : string) :
  requests_of (expandQuery w term) = [GetDatamuse (datamuse_params term)].
Proof. reflexivity. Qed.

Lemma expandQuery_eq (w : World) (term : string) :
  expandQuery w term = (synonyms_of w term, [GetDatamuse (datamuse_params term)]).
Proof. reflexivity. Qed.

(** The expansions are collected in the order of the terms, one request
    per term. *)
Lemma Promise_all_expand (w : World) (terms : list string) :
  Promise_all (map (expandQuery w) terms)
  = (map (synonyms_of w) terms,
     map (fun term => GetDatamuse (datamuse_params term)) terms).
Proof.
  induction terms as [|t terms IH]; [reflexivity|].
  cbn [map Promise_all]. rewrite IH, expandQuery_eq.
  unfold bind, ret. simpl. now rewrite app_nil_r.
Qed.

Lemma expansion_length (w : World) (terms : list string) :
  List.length (value_of (Promise_all (map (expandQuery w) terms)))
  = List.length terms.
Proof. rewrite Promise_all_expand. simpl. apply length_map. Qed.

Lemma federate_eq (w : World) (queryString : string) :
  federate w queryString
  = (json (rank (normalize
                   (europeanaItems (europeana w (europeana_params w queryString))
                    ++ plosItems (plos w (plos_params queryString)))%list)),
     [GetEuropeana (europeana_params w queryString);
      GetPlos (plos_params queryString)]).
Proof. reflexivity. Qed.

Lemma pipeline_eq (w : World) (userQuery : string) :
  pipeline w userQuery
  = let expansions :=
      map (fun term => GetDatamuse (datamuse_params term))
          (originalTerms_of userQuery) in
    let queryString := queryString_for w userQuery in
    if negb (JS.truthy queryString) then (json [], expansions)
    else (value_of (federate w queryString),
          (expansions ++ requests_of (federate w queryString))%list).
Proof.
  unfold pipeline, queryString_for. rewrite Promise_all_expand.
  cbv zeta. unfold bind at 1.
  destruct (negb (JS.truthy _)).
  - unfold ret. now rewrite app_nil_r.
  - rewrite federate_eq. reflexivity.
Qed.

(** The guard on the raw query. *)
Lemma search_guard (w : World) (q : option string) :
  search w q
  = match q with
    | None | Some EmptyString => (status400 error_q_requerido, [])
    | Some userQuery => pipeline w userQuery
    end.
Proof. destruct q as [[|c s]|]; reflexivity. Qed.


Lemma all_white_space_no_terms (userQuery : string) :
  all_white_space userQuery = true -> originalTerms_of userQuery = [].
Proof.
  intros H. rewrite originalTerms_filter.
  pose proof (split_forallb _ " " _ H) as Hall.
  induction Hall as [|tok toks Htok _ IH]; simpl; [reflexivity|].
  unfold all_white_space. now rewrite Htok.
Qed.

Lemma no_terms_pipeline (w : World) (userQuery : string) :
  originalTerms_of userQuery = [] -> pipeline w userQuery = (json [], []).
Proof.
  intros H. rewrite pipeline_eq. unfold queryString_for. rewrite H.
  reflexivity.
Qed.

(** ** Raw queries without terms, and the guard *)

(** C5, as the code has it: for a raw query whose splitting yields no term
    the handler issues no request at all, so no connector is invoked; it
    answers the empty list when the raw query is not the empty string, and
    rejects the empty string with the error of the guard. *)
Theorem no_terms_short_circuit (w : World) (userQuery : string) :
  originalTerms_of userQuery = [] ->
  requests_of (search w (Some userQuery)) = []
  /\ (userQuery <> "" -> value_of (search w (Some userQuery)) = json [])
  /\ (userQuery = "" ->
      value_of (search w (Some userQuery)) = status400 error_q_requerido).
Proof.
  intros H. rewrite search_guard.
  destruct userQuery as [|c s].
  - split; [reflexivity|]. split; [congruence|reflexivity].
  - rewrite (no_terms_pipeline w _ H).
    split; [reflexivity|]. split; [reflexivity|discriminate].
Qed.

(** The raw query of two spaces, with no network. *)
Lemma no_terms_short_circuit_witness :
  requests_of (search offline (Some "  ")) = []
  /\ ("  " <> "" -> value_of (search offline (Some "  ")) = json [])
  /\ ("  " = "" ->
      value_of (search offline (Some "  ")) = status400 error_q_requerido).
Proof.
  apply (no_terms_short_circuit offline "  "). reflexivity.
Defined.

(** C5 as stated fails on the empty raw query: it has no term, and the
    answer is the error of the guard, not the empty list. *)
Example empty_query_rejected :
  originalTerms_of "" = []
  /\ value_of (search offline (Some "")) = status400 error_q_requerido
  /\ value_of (search offline (Some "")) <> json [].
Proof.
  repeat split; try reflexivity. discriminate.
Qed.


Example search_blank_query :
  search offline (Some "   ") = (json [], []).
Proof. reflexivity. Qed.

(** ** Synonym expansion *)

Lemma nth_error_mapi_from {A B : Type} (f : A -> nat -> B) (k i : nat)
  (l : list A) :
  nth_error (JS.mapi_from f k l) i
  = option_map (fun x => f x (k + i)%nat) (nth_error l i).
Proof.
  revert k i. induction l as [|x l IH]; intros k [|i]; simpl; try reflexivity.
  - now rewrite Nat.add_0_r.
  - rewrite IH. now rewrite Nat.add_succ_r.
Qed.

(** The group at the place of a term is the group of that term with the
    synonyms found for it. *)
Lemma nth_error_queryGroups (w : World) (terms : list string) (i : nat)
  (term : string) :
  nth_error terms i = Some term ->
  nth_error (queryGroups_of terms (map (synonyms_of w) terms)) i
  = Some (queryGroup term (synonyms_of w term)).
Proof.
  intros H. unfold queryGroups_of, JS.mapi.
  rewrite nth_error_mapi_from, H. simpl. do 2 f_equal.
  apply nth_error_nth. rewrite nth_error_map, H. reflexivity.
Qed.

Lemma expansion_failed_synonyms (w : World) (term : string) :
  expansion_failed (datamuse w (datamuse_params term)) = true ->
  synonyms_of w term = [].
Proof.
  unfold synonyms_of, expandQuery, axios_get_datamuse, expansion_failed.
  simpl. destruct (datamuse w (datamuse_params term)) as [[[body|]]|reason];
    simpl; [discriminate|reflexivity|reflexivity].
Qed.

(** With no network at all, "cat dog" is still searched, as [cat AND dog]. *)
Example offline_cat_dog :
  queryString_for offline "cat dog" = "cat AND dog"
  /\ search offline (Some "cat dog")
     = (json [],
        [GetDatamuse (datamuse_params "cat");
         GetDatamuse (datamuse_params "dog");
         GetEuropeana (europeana_params offline "cat AND dog");
         GetPlos (plos_params "cat AND dog")]).
Proof. split; reflexivity. Qed.

(** C9, as the code has it: [expandQuery] asks the service once, for at most
    5 words related to the term, and answers the words of the reply as they
    come: all of them and in their order.  So the answer has at most 5 words
    when the service keeps to the maximum it is asked for, has no duplicate
    when the reply has none, and is empty when the reply is. *)
Theorem expandQuery_words (w : World) (term : string) :
  requests_of (expandQuery w term) = [GetDatamuse {| Datamuse.ml := term;
                                                     Datamuse.max := 5 |}]
  /\ (forall words,
        datamuse w (datamuse_params term) = fulfilled {| data := Some words |} ->
        value_of (expandQuery w term) = map Datamuse.word words)
  /\ (honours_max w -> (List.length (value_of (expandQuery w term)) <= 5)%nat)
  /\ (distinct_words w -> NoDup (value_of (expandQuery w term)))
  /\ (datamuse w (datamuse_params term) = fulfilled {| data := Some [] |} ->
      value_of (expandQuery w term) = []).
Proof.
  split; [reflexivity|].
  assert (Hwords : forall words,
             datamuse w (datamuse_params term)
             = fulfilled {| data := Some words |} ->
             value_of (expandQuery w term) = map Datamuse.word words).
  { intros words H. unfold expandQuery, axios_get_datamuse. simpl.
    now rewrite H. }
  split; [exact Hwords|].
  assert (Hcases : value_of (expandQuery w term) = []
                   \/ exists words,
                       datamuse w (datamuse_params term)
                       = fulfilled {| data := Some words |}).
  { unfold expandQuery, axios_get_datamuse. simpl.
    destruct (datamuse w (datamuse_params term)) as [[[body|]]|reason]; eauto. }
  split; [|split].
  - intros Hmax. destruct Hcases as [->|[words H]]; [simpl; lia|].
    rewrite (Hwords _ H), length_map. exact (Hmax _ _ H).
  - intros Hdis. destruct Hcases as [->|[words H]]; [constructor|].
    rewrite (Hwords _ H). exact (Hdis _ _ H).
  - intros H. now rewrite (Hwords _ H).
Qed.

(** C9 as stated fails when the service answers more than it was asked for,
    or a word twice: [expandQuery] passes the reply on as it is. *)
Example expandQuery_passes_reply_on :
  value_of (expandQuery talkative "cat")
  = ["feline"; "kitty"; "kitten"; "puss"; "tom"; "feline"]
  /\ (5 < List.length (value_of (expandQuery talkative "cat")))%nat
  /\ ~ NoDup (value_of (expandQuery talkative "cat")).
Proof.
  split; [reflexivity|]. split; [simpl; lia|].
  intros H. apply NoDup_cons_iff in H. apply (proj1 H). simpl. tauto.
Qed.

(** ** The stable sort, for a comparator [(a, b) => key(b) - key(a)] *)

Section SortByKey.
Context {A : Type} (key : A -> Q).

Lemma desc_by_test (x y : A) :
  Qle_bool (desc_by key x y) 0 = true <-> (key y <= key x)%Q.
Proof.
  unfold desc_by. rewrite Qle_bool_iff. split; intros H.
  - apply Qle_minus_iff. apply Qle_minus_iff in H.
    setoid_replace (key x + - key y)%Q with (0 + - (key y - key x))%Q by ring.
    exact H.
  - apply Qle_minus_iff. apply Qle_minus_iff in H.
    setoid_replace (0 + - (key y - key x))%Q with (key x + - key y)%Q by ring.
    exact H.
Qed.

Lemma desc_by_test_false (x y : A) :
  Qle_bool (desc_by key x y) 0 = false <-> (key x < key y)%Q.
Proof.
  rewrite <- not_true_iff_false, desc_by_test. split.
  - apply Qnot_le_lt.
  - apply Qlt_not_le.
Qed.

Lemma sort_insert_perm (x : A) (l : list A) :
  Permutation (JS.sort_insert (desc_by key) x l) (x :: l).
Proof.
  induction l as [|y l IH]; simpl; [reflexivity|].
  destruct (Qle_bool _ _); [reflexivity|].
  rewrite IH. apply perm_swap.
Qed.

Lemma sort_perm (l : list A) : Permutation (JS.sort (desc_by key) l) l.
Proof.
  induction l as [|x l IH]; simpl; [reflexivity|].
  rewrite sort_insert_perm. now constructor.
Qed.

Lemma sort_insert_descending (x : A) (l : list A) :
  descending key l -> descending key (JS.sort_insert (desc_by key) x l).
Proof.
  unfold descending.
  induction l as [|y l IH]; intros Hs; simpl.
  - repeat constructor.
  - inversion Hs as [|? ? Hl Hy]; subst.
    destruct (Qle_bool _ _) eqn:E.
    + apply desc_by_test in E. constructor; [assumption|].
      constructor; [assumption|].
      rewrite Forall_forall in *. intros z Hz.
      eapply Qle_trans; [apply Hy, Hz|exact E].
    + apply desc_by_test_false in E. constructor; [now apply IH|].
      apply (Permutation_Forall (Permutation_sym (sort_insert_perm x l))).
      constructor; [now apply Qlt_le_weak|assumption].
Qed.

Lemma sort_descending (l : list A) : descending key (JS.sort (desc_by key) l).
Proof.
  induction l as [|x l IH]; simpl.
  - constructor.
  - now apply sort_insert_descending.
Qed.

(** Inserting a member leaves the members of each key in their order, the
    new one first. *)
Lemma sort_insert_stable (q : Q) (x : A) (l : list A) :
  filter (has_key key q) (JS.sort_insert (desc_by key) x l)
  = filter (has_key key q) (x :: l).
Proof.
  induction l as [|y l IH]; [reflexivity|].
  cbn [JS.sort_insert].
  destruct (Qle_bool _ _) eqn:E; [reflexivity|].
  apply desc_by_test_false in E.
  cbn [filter] in *. rewrite IH.
  destruct (has_key key q x) eqn:Ex, (has_key key q y) eqn:Ey; try reflexivity.
  unfold has_key in *. apply Qeq_bool_iff in Ex, Ey.
  rewrite Ex, Ey in E. now apply Qlt_irrefl in E.
Qed.

Lemma sort_stable (q : Q) (l : list A) :
  filter (has_key key q) (JS.sort (desc_by key) l) = filter (has_key key q) l.
Proof.
  induction l as [|x l IH]; [reflexivity|].
  cbn [JS.sort fold_right]. fold (JS.sort (desc_by key) l).
  rewrite sort_insert_stable. cbn [filter]. now rewrite IH.
Qed.

(** A list that is in descending order already is left as it is. *)
Lemma sort_descending_id (l : list A) :
  descending key l -> JS.sort (desc_by key) l = l.
Proof.
  unfold descending.
  induction l as [|x l IH]; intros Hs; [reflexivity|].
  inversion Hs as [|? ? Hl Hx]; subst.
  cbn [JS.sort fold_right]. fold (JS.sort (desc_by key) l).
  rewrite (IH Hl). destruct l as [|y l]; [reflexivity|].
  cbn [JS.sort_insert]. inversion Hx; subst.
  now rewrite (proj2 (desc_by_test x y)).
Qed.

End SortByKey.

Lemma filter_has_key_cons {A : Type} (key : A -> Q) (q : Q) (x : A)
  (l : list A) :
  filter (has_key key q) (x :: l)
  = if Qeq_bool (key x) q then x :: filter (has_key key q) l
    else filter (has_key key q) l.
Proof. reflexivity. Qed.

(** Two lists in descending order that hold, for every key, the same members
    in the same order are the same list: the result of a stable sort does
    not depend on how it is computed. *)
Lemma descending_stable_unique {A : Type} (key : A -> Q) (l1 l2 : list A) :
  descending key l1 -> descending key l2 ->
  (forall q, filter (has_key key q) l1 = filter (has_key key q) l2) ->
  l1 = l2.
Proof.
  assert (Hhead : forall x l l',
             descending key l' ->
             (forall q, filter (has_key key q) (x :: l)
                        = filter (has_key key q) l') ->
             exists y l'', l' = y :: l'' /\ (key x <= key y)%Q).
  { intros x l l' Hs Hf. specialize (Hf (key x)).
    rewrite filter_has_key_cons, Qeq_bool_refl in Hf.
    destruct l' as [|y l'']; [discriminate|].
    exists y, l''. split; [reflexivity|].
    assert (Hin : In x (filter (has_key key (key x)) (y :: l''))).
    { rewrite <- Hf. now left. }
    apply filter_In in Hin. destruct Hin as [[->|Hin] _]; [apply Qle_refl|].
    inversion Hs as [|? ? _ Hy]; subst. rewrite Forall_forall in Hy.
    now apply Hy. }
  revert l2. induction l1 as [|x l1 IH]; intros l2 H1 H2 Hf.
  - destruct l2 as [|y l2]; [reflexivity|].
    destruct (Hhead y l2 [] H1 (fun q => eq_sym (Hf q))) as [? [? [? _]]].
    discriminate.
  - destruct (Hhead x l1 l2 H2 Hf) as [y [l2' [-> Hxy]]].
    destruct (Hhead y l2' (x :: l1) H1 (fun q => eq_sym (Hf q)))
      as [x' [l1' [Heq Hyx]]].
    injection Heq as <- <-.
    assert (Hk : (key x == key y)%Q) by now apply Qle_antisym.
    assert (Hxy' : x = y /\ forall q, filter (has_key key q) l1
                                      = filter (has_key key q) l2').
    { split.
      - specialize (Hf (key x)). rewrite !filter_has_key_cons in Hf.
        rewrite Qeq_bool_refl, (proj2 (Qeq_bool_iff _ _) (Qeq_sym _ _ Hk)) in Hf.
        congruence.
      - intros q. specialize (Hf q). rewrite !filter_has_key_cons in Hf.
        destruct (Qeq_bool (key x) q) eqn:Ex.
        + apply Qeq_bool_iff in Ex.
          rewrite (proj2 (Qeq_bool_iff (key y) q)) in Hf
            by (now rewrite <- Hk).
          congruence.
        + destruct (Qeq_bool (key y) q) eqn:Ey; [|exact Hf].
          apply Qeq_bool_iff in Ey. rewrite <- Hk in Ey.
          apply Qeq_bool_iff in Ey. congruence. }
    destruct Hxy' as [<- Htl]. f_equal.
    inversion H1; subst. inversion H2; subst. now apply IH.
Qed.

(** ** Normalization of the scores *)

Open Scope Q_scope.

Lemma Math_max0_nonneg (xs : list Q) : 0 <= JS.Math_max0 xs.
Proof.
  induction xs as [|x xs IH]; simpl.
  - apply Qle_refl.
  - eapply Qle_trans; [exact IH|apply Q.le_max_r].
Qed.

Lemma Math_max0_upper (xs : list Q) (x : Q) :
  In x xs -> x <= JS.Math_max0 xs.
Proof.
  induction xs as [|y xs IH]; simpl; [tauto|].
  intros [->|Hin].
  - apply Q.le_max_l.
  - eapply Qle_trans; [now apply IH|apply Q.le_max_r].
Qed.

Lemma Math_max0_attained (xs : list Q) :
  JS.Math_max0 xs == 0 \/ Exists (fun x => x == JS.Math_max0 xs) xs.
Proof.
  induction xs as [|y xs IH]; simpl.
  - left. reflexivity.
  - destruct (Q.max_spec y (JS.Math_max0 xs)) as [[Hlt Heq]|[Hle Heq]].
    + destruct IH as [IH|IH].
      * left. now rewrite Heq.
      * right. apply Exists_cons_tl.
        apply Exists_exists in IH. destruct IH as [x [Hin Hx]].
        apply Exists_exists. exists x. split; [assumption|].
        now rewrite Heq.
    + right. apply Exists_cons_hd. now rewrite Heq.
Qed.

Lemma gt_true_iff (x y : Q) : JS.gt x y = true <-> y < x.
Proof.
  unfold JS.gt. rewrite negb_true_iff, <- not_true_iff_false, Qle_bool_iff.
  split; [apply Qnot_le_lt|apply Qlt_not_le].
Qed.

Lemma divisor_of_pos_max (maxScore : Q) :
  0 < maxScore -> divisor_of maxScore = maxScore.
Proof.
  intros H. unfold divisor_of. now rewrite (proj2 (gt_true_iff _ _) H).
Qed.

Lemma divisor_of_zero_max (maxScore : Q) :
  maxScore <= 0 -> divisor_of maxScore = 1.
Proof.
  intros H. unfold divisor_of.
  destruct (JS.gt maxScore 0) eqn:E; [|reflexivity].
  apply gt_true_iff in E. now apply Qlt_not_le in E.
Qed.

Lemma divisor_of_pos (maxScore : Q) : 0 < divisor_of maxScore.
Proof.
  unfold divisor_of. destruct (JS.gt maxScore 0) eqn:E.
  - now apply gt_true_iff.
  - reflexivity.
Qed.

(** The block of the handler, as one [map]. *)
Lemma normalize_map (allResults : list ResultRecord) :
  normalize allResults
  = map (fun result =>
           set_normalized_score result
             (original_relevance_score result
              / divisor_of (maxScore_of allResults)))
        allResults.
Proof.
  unfold normalize. destruct allResults; reflexivity.
Qed.

Lemma Forall2_map_self {A B : Type} (R : A -> B -> Prop) (f : A -> B)
  (l : list A) :
  (forall x, In x l -> R x (f x)) -> Forall2 R l (map f l).
Proof.
  induction l as [|x l IH]; intros H; simpl; constructor.
  - apply H. now left.
  - apply IH. intros y Hy. apply H. now right.
Qed.

Lemma maxScore_upper (allResults : list ResultRecord) (r : ResultRecord) :
  In r allResults -> original_relevance_score r <= maxScore_of allResults.
Proof.
  intros H. apply Math_max0_upper. now apply in_map.
Qed.

(** C1, as the code has it: the maximal score is the greatest original
    score of the collected records, and at least 0; every record keeps its
    content and gets its original score divided by the maximal score when
    that is positive, and by 1 when it is 0.  So a record that has the
    maximal score gets 1 when the maximal score is positive and 0 when it
    is 0. *)
Theorem normalize_scores (allResults : list ResultRecord) :
  (0 <= maxScore_of allResults
   /\ Forall (fun r => original_relevance_score r <= maxScore_of allResults)
             allResults
   /\ (maxScore_of allResults == 0
       \/ Exists (fun r => original_relevance_score r == maxScore_of allResults)
                 allResults))
  /\ Forall2
       (fun r r' =>
          content r' = content r
          /\ (0 < maxScore_of allResults ->
              normalized_score r'
              == original_relevance_score r / maxScore_of allResults)
          /\ (maxScore_of allResults == 0 ->
              normalized_score r' == original_relevance_score r / 1)
          /\ (original_relevance_score r == maxScore_of allResults ->
              (0 < maxScore_of allResults -> normalized_score r' == 1)
              /\ (maxScore_of allResults == 0 -> normalized_score r' == 0)))
       allResults (normalize allResults).
Proof.
  split; [split; [|split]|].
  - apply Math_max0_nonneg.
  - apply Forall_forall. intros r. apply maxScore_upper.
  - destruct (Math_max0_attained (map original_relevance_score allResults))
      as [H|H]; [now left|right].
    apply Exists_exists in H. destruct H as [x [Hin Hx]].
    apply in_map_iff in Hin. destruct Hin as [r [<- Hin]].
    apply Exists_exists. now exists r.
  - rewrite normalize_map. apply Forall2_map_self. intros r Hin. simpl.
    split; [reflexivity|].
    assert (Hpos : 0 < maxScore_of allResults ->
                   normalized_score
                     (set_normalized_score r
                        (original_relevance_score r
                         / divisor_of (maxScore_of allResults)))
                   == original_relevance_score r / maxScore_of allResults).
    { intros H. simpl. now rewrite (divisor_of_pos_max _ H). }
    assert (Hzero : maxScore_of allResults == 0 ->
                    normalized_score
                      (set_normalized_score r
                         (original_relevance_score r
                          / divisor_of (maxScore_of allResults)))
                    == original_relevance_score r / 1).
    { intros H. simpl. rewrite divisor_of_zero_max; [reflexivity|].
      rewrite H. apply Qle_refl. }
    split; [exact Hpos|]. split; [exact Hzero|].
    intros Hmax. split.
    + intros H. rewrite (Hpos H), Hmax.
      apply Qmult_inv_r. intros H0. rewrite H0 in H. now apply Qlt_irrefl in H.
    + intros H. rewrite (Hzero H), Hmax, H. reflexivity.
Qed.

(** C1 as stated fails when the maximal score is below 1: a single record
    of score 1/2 gets 1, and 1/2 divided by the greater of 1 and 1/2 is
    1/2. *)
Example normalize_below_one :
  maxScore_of [half_scored] == 1 # 2
  /\ map normalized_score (normalize [half_scored]) = [ (1 # 2) / (1 # 2) ]
  /\ (1 # 2) / (1 # 2) == 1
  /\ original_relevance_score half_scored / Qmax 1 (maxScore_of [half_scored])
     == 1 # 2
  /\ ~ (1 # 2) / (1 # 2)
       == original_relevance_score half_scored
          / Qmax 1 (maxScore_of [half_scored]).
Proof.
  repeat split; try reflexivity. intros H. discriminate H.
Qed.

Close Scope Q_scope.

(** ** Ranking *)

Lemma rank_sort : rank = JS.sort (desc_by normalized_score).
Proof. reflexivity. Qed.

Lemma normalize_content (l : list ResultRecord) :
  map content (normalize l) = map content l.
Proof.
  rewrite normalize_map, map_map. apply map_ext. reflexivity.
Qed.

(** Normalization and ranking do not touch the content of the records. *)
Lemma rank_normalize_content (l : list ResultRecord) :
  Permutation (map content (rank (normalize l))) (map content l).
Proof.
  rewrite <- (normalize_content l). apply Permutation_map.
  rewrite rank_sort. apply sort_perm.
Qed.

(** C3: the handler answers the collected records (those of Europeana, then
    those of PLOS, each in the order reported, with their normalized scores)
    sorted by normalized score: the same records, in descending order, those
    of equal normalized score in their order of collection.  No other list
    has these properties.  Sorting a list that is in descending order already
    changes nothing, so sorting twice is sorting once. *)
Theorem rank_stable_descending (w : World) (queryString : string) :
  exists collected,
    collected
    = normalize
        (europeanaItems (europeana w (europeana_params w queryString))
         ++ plosItems (plos w (plos_params queryString)))%list
    /\ value_of (federate w queryString) = json (rank collected)
    /\ (forall items docs,
          europeana w (europeana_params w queryString) = europeana_ok items ->
          plos w (plos_params queryString) = plos_ok docs ->
          map content collected
          = map content (map europeanaItem items ++ map plosItem docs)%list)
    /\ Permutation (rank collected) collected
    /\ descending normalized_score (rank collected)
    /\ (forall q,
          filter (has_key normalized_score q) (rank collected)
          = filter (has_key normalized_score q) collected)
    /\ (forall other,
          descending normalized_score other ->
          (forall q,
              filter (has_key normalized_score q) other
              = filter (has_key normalized_score q) collected) ->
          other = rank collected)
    /\ (forall sorted, descending normalized_score sorted -> rank sorted = sorted)
    /\ rank (rank collected) = rank collected.
Proof.
  eexists. split; [reflexivity|].
  split; [reflexivity|].
  split.
  { intros items docs He Hp. rewrite He, Hp. apply normalize_content. }
  set (collected := normalize _).
  rewrite rank_sort.
  split; [apply sort_perm|].
  split; [apply sort_descending|].
  split; [intros q; apply sort_stable|].
  split.
  - intros other Hd Hf.
    apply (descending_stable_unique normalized_score);
      [assumption|apply sort_descending|].
    intros q. now rewrite sort_stable.
  - split; [apply sort_descending_id|].
    apply sort_descending_id, sort_descending.
Qed.

(** The scenario of the specification, end to end. *)
Example search_scenario :
  search scenario (Some "cat dog")
  = (json
       [ {| title := "A"; source := "Europeana";
            original_relevance_score := 10; link := "http://a";
            normalized_score := 10 / 10 |};
         {| title := "B"; source := "PLOS";
            original_relevance_score := 5;
            link := "https://journals.plos.org/plosone/article?id=10.1371/b";
            normalized_score := 5 / 10 |} ],
     [ GetDatamuse (datamuse_params "cat");
       GetDatamuse (datamuse_params "dog");
       GetEuropeana (europeana_params scenario "(cat OR feline) AND dog");
       GetPlos (plos_params "(cat OR feline) AND dog") ])
  /\ (10 / 10 == 1)%Q /\ (5 / 10 == 1 # 2)%Q.
Proof. repeat split. Qed.

(** ** Provider failures *)

Lemma europeana_failed_items (settled : Settled Europeana.Body) :
  europeana_failed settled = true -> europeanaItems settled = [].
Proof.
  destruct settled as [[[[[items|]]|]]|reason]; simpl;
    intros H; try reflexivity; discriminate.
Qed.

Lemma plos_failed_items (settled : Settled Plos.Body) :
  plos_failed settled = true -> plosItems settled = [].
Proof.
  destruct settled as [[[[[[[docs|]]|]]|]]|reason]; simpl;
    intros H; try reflexivity; discriminate.
Qed.

Lemma string_app_not_empty (a b : string) : a <> "" -> (a ++ b)%string <> "".
Proof. destruct a; [congruence|discriminate]. Qed.

Lemma queryGroup_not_empty (term : string) (synonyms : list string) :
  term <> "" -> queryGroup term synonyms <> "".
Proof.
  intros H. unfold queryGroup. destruct (_ <? _)%nat; [discriminate|exact H].
Qed.

(** The query string is empty exactly when the raw query has no term. *)
Lemma queryString_empty_iff (w : World) (userQuery : string) :
  queryString_for w userQuery = "" <-> originalTerms_of userQuery = [].
Proof.
  unfold queryString_for. split.
  - pose proof (originalTerms_shape userQuery) as Hterms.
    destruct (originalTerms_of userQuery) as [|t ts]; [reflexivity|].
    inversion Hterms as [|? ? [Ht _] _]; subst.
    unfold queryString_of, queryGroups_of, JS.mapi, JS.join. simpl.
    intros H. exfalso.
    pose proof (queryGroup_not_empty t (synonyms_of w t) Ht) as Hg.
    destruct (JS.mapi_from _ 1 ts).
    + contradiction.
    + now apply (string_app_not_empty _ _ Hg) in H.
  - intros ->. reflexivity.
Qed.

(** A provider is asked exactly when the raw query has a term. *)
Lemma provider_invoked_iff (w : World) (q : option string) :
  existsb is_provider_request (requests_of (search w q)) = true
  <-> exists userQuery, q = Some userQuery /\ originalTerms_of userQuery <> [].
Proof.
  rewrite search_guard. split.
  - destruct q as [[|c s]|]; simpl; try discriminate.
    intros H. exists (String c s). split; [reflexivity|].
    intros Hno. rewrite (no_terms_pipeline w _ Hno) in H. discriminate.
  - intros [userQuery [-> Hterms]].
    destruct userQuery as [|c s]; [now elim Hterms|].
    rewrite pipeline_eq. cbv zeta.
    destruct (negb (JS.truthy _)) eqn:E.
    + apply negb_true_iff, negb_false_iff, String.eqb_eq in E.
      now apply queryString_empty_iff in E.
    + unfold requests_of. simpl. rewrite existsb_app. simpl.
      apply orb_true_r.
Qed.

(** What the handler does for a raw query that has a term. *)
Lemma search_run (w : World) (userQuery : string) :
  userQuery <> "" -> queryString_for w userQuery <> "" ->
  search w (Some userQuery)
  = (json (rank (normalize (europeanaItems (europeana_outcome w userQuery)
                            ++ plosItems (plos_outcome w userQuery))%list)),
     (map (fun term => GetDatamuse (datamuse_params term))
          (originalTerms_of userQuery)
      ++ [GetEuropeana (europeana_params w (queryString_for w userQuery));
          GetPlos (plos_params (queryString_for w userQuery))])%list).
Proof.
  intros Hq Hqs. rewrite search_guard.
  destruct userQuery as [|c s]; [congruence|].
  rewrite pipeline_eq. cbv zeta.
  apply String.eqb_neq in Hqs. unfold JS.truthy. rewrite Hqs. reflexivity.
Qed.

Lemma search_no_query_string (w : World) (userQuery : string) :
  userQuery <> "" -> queryString_for w userQuery = "" ->
  search w (Some userQuery) = (json [], []).
Proof.
  intros Hq Hqs. rewrite search_guard.
  destruct userQuery as [|c s]; [congruence|].
  apply no_terms_pipeline. now apply (queryString_empty_iff w).
Qed.

(** The failures the handler recovers from: when the request of a provider
    is rejected, or its body lacks [data], [items] or [docs], the handler
    does exactly what it does when that provider reports no record: it
    answers the records of the other provider, normalized among themselves
    and ranked, their content untouched.  When both fail in this way it
    answers the empty list. *)
Theorem provider_failure_isolated (w : World) (userQuery : string) :
  userQuery <> "" ->
  (europeana_failed (europeana_outcome w userQuery) = true ->
   search w (Some userQuery)
   = search (with_europeana w (fun _ => europeana_ok [])) (Some userQuery)
   /\ (queryString_for w userQuery <> "" ->
       value_of (search w (Some userQuery))
       = json (rank (normalize (plosItems (plos_outcome w userQuery))))))
  /\ (plos_failed (plos_outcome w userQuery) = true ->
      search w (Some userQuery)
      = search (with_plos w (fun _ => plos_ok [])) (Some userQuery)
      /\ (queryString_for w userQuery <> "" ->
          value_of (search w (Some userQuery))
          = json (rank (normalize (europeanaItems (europeana_outcome w userQuery))))))
  /\ (europeana_failed (europeana_outcome w userQuery) = true ->
      plos_failed (plos_outcome w userQuery) = true ->
      value_of (search w (Some userQuery)) = json [])
  /\ (forall records,
        Permutation (map content (rank (normalize records)))
                    (map content records)).
Proof.
  intros Hq.
  destruct (string_dec (queryString_for w userQuery) "") as [Hqs|Hqs].
  - rewrite (search_no_query_string w _ Hq Hqs).
    split; [|split; [|split]].
    + intros _. split; [|contradiction].
      symmetry. now apply search_no_query_string.
    + intros _. split; [|contradiction].
      symmetry. now apply search_no_query_string.
    + reflexivity.
    + apply rank_normalize_content.
  - rewrite (search_run w _ Hq Hqs).
    split; [|split; [|split]].
    + intros He. rewrite (europeana_failed_items _ He).
      split; [|reflexivity].
      rewrite (search_run (with_europeana w _) _ Hq Hqs). reflexivity.
    + intros Hp. rewrite (plos_failed_items _ Hp), app_nil_r.
      split; [|reflexivity].
      rewrite (search_run (with_plos w _) _ Hq Hqs).
      simpl. now rewrite app_nil_r.
    + intros He Hp.
      now rewrite (europeana_failed_items _ He), (plos_failed_items _ Hp).
    + apply rank_normalize_content.
Qed.

(** The raw query "cat" when Europeana is down and PLOS answers. *)
Lemma provider_failure_isolated_witness :
  search plos_only (Some "cat")
  = search (with_europeana plos_only (fun _ => europeana_ok [])) (Some "cat")
  /\ (queryString_for plos_only "cat" <> "" ->
      value_of (search plos_only (Some "cat"))
      = json (rank (normalize (plosItems (plos_outcome plos_only "cat"))))).
Proof.
  apply (provider_failure_isolated plos_only "cat").
  - discriminate.
  - reflexivity.
Defined.

(** Europeana is down and PLOS answers; PLOS is down and Europeana answers;
    both are down. *)
Example search_plos_only :
  value_of (search plos_only (Some "cat"))
  = json [ {| title := "B"; source := "PLOS"; original_relevance_score := 5;
              link := "#"; normalized_score := 5 / 5 |} ].
Proof. reflexivity. Qed.

Example search_europeana_only :
  value_of (search europeana_only (Some "cat"))
  = json [ {| title := "A"; source := "Europeana";
              original_relevance_score := 10; link := "http://a";
              normalized_score := 10 / 10 |} ].
Proof. reflexivity. Qed.

Example search_offline :
  value_of (search offline (Some "cat")) = json [].
Proof. reflexivity. Qed.

(** ** Provider bodies that are not of the expected shape *)

Lemma map_objects_none {A B : Type} (f : A -> B) (members : list (option A)) :
  map_objects f members = None
  <-> existsb (fun m => match m with None => true | Some _ => false end)
              members = true.
Proof.
  induction members as [|[a|] members IH]; simpl.
  - split; discriminate.
  - destruct (map_objects f members); [|tauto].
    split; [discriminate|]. intros H. apply IH in H. discriminate.
  - tauto.
Qed.


Lemma europeanaItems_raw_none (settled : Settled RawEuropeana.Body) :
  europeanaItems_raw settled = None <-> malformed_europeana settled = true.
Proof.
  destruct settled as [[[[items]|]]|reason]; simpl;
    try (split; discriminate).
  destruct items; simpl; try (split; [discriminate|discriminate]).
  - apply map_objects_none.
  - tauto.
Qed.

Lemma plosItems_raw_none (settled : Settled RawPlos.Body) :
  plosItems_raw settled = None <-> malformed_plos settled = true.
Proof.
  destruct settled as [[[[[[docs]|]]|]]|reason]; simpl;
    try (split; discriminate).
  destruct docs; simpl; try (split; [discriminate|discriminate]).
  - apply map_objects_none.
  - tauto.
Qed.



(** What the handler does for a raw query that has a term, with bodies of
    any shape. *)
Lemma search_raw_run (rw : RawWorld) (userQuery : string) :
  originalTerms_of userQuery <> [] ->
  search_raw rw (Some userQuery)
  = (match europeanaItems_raw (raw_europeana_outcome rw userQuery),
           plosItems_raw (raw_plos_outcome rw userQuery) with
     | Some europeanaItems, Some plosItems =>
         sent (json (rank (normalize (europeanaItems ++ plosItems)%list)))
     | _, _ => uncaught
     end,
     (map (fun term => GetDatamuse (datamuse_params term))
          (originalTerms_of userQuery)
      ++ [GetEuropeana
            (europeana_params (expected rw)
               (queryString_for (expected rw) userQuery));
          GetPlos (plos_params (queryString_for (expected rw) userQuery))])%list).
Proof.
  intros Hterms.
  assert (Hq : userQuery <> "") by (intros ->; now apply Hterms).
  assert (Hqs : queryString_for (expected rw) userQuery <> "").
  { intros H. now apply queryString_empty_iff in H. }
  unfold search_raw, JS.truthy.
  rewrite (proj2 (String.eqb_neq _ _) Hq). cbn [negb].
  unfold pipeline_raw. rewrite Promise_all_expand.
  unfold bind at 1. cbv beta iota zeta.
  change (queryString_of (originalTerms_of userQuery)
            (map (synonyms_of (expected rw)) (originalTerms_of userQuery)))
    with (queryString_for (expected rw) userQuery).
  unfold JS.truthy.
  rewrite (proj2 (String.eqb_neq _ _) Hqs). cbn [negb].
  unfold federate_raw, raw_europeana_outcome, raw_plos_outcome,
    axios_get_raw_europeana, axios_get_raw_plos, bind, ret.
  cbn [app].
  destruct (europeanaItems_raw _); [|reflexivity].
  destruct (plosItems_raw _); reflexivity.
Qed.


(** C4 fails on a body of unexpected shape that passes the test of the
    handler: when [items] of Europeana is an object, or an array that holds a
    [null], while PLOS answers a document, [items.map] throws, nothing
    catches it, and no response is sent: the record of PLOS is lost.  With
    an empty or an absent [items] the record of PLOS is answered. *)
Example malformed_items_lose_records :
  search_raw (drifted raw_other) (Some "cat")
  = (uncaught,
     [ GetDatamuse (datamuse_params "cat");
       GetEuropeana {| Europeana.query := "cat"; Europeana.wskey := "key";
                       Europeana.rows := 20 |};
       GetPlos (plos_params "cat") ])
  /\ value_of (search_raw (drifted (raw_array [None])) (Some "cat")) = uncaught
  /\ value_of (search_raw (drifted (raw_array [])) (Some "cat"))
     = sent (json [ {| title := "B"; source := "PLOS";
                       original_relevance_score := 5; link := "#";
                       normalized_score := 5 / 5 |} ])
  /\ value_of (search_raw (drifted raw_falsy) (Some "cat"))
     = sent (json [ {| title := "B"; source := "PLOS";
                       original_relevance_score := 5; link := "#";
                       normalized_score := 5 / 5 |} ]).
Proof. repeat split. Qed.

(** X16: for a raw query that has a term, when the response of a provider
    came and its [items] (for PLOS its [docs]) is a truthy value that is not
    an array, or an array with a [null] member, the handler sends no
    response, whatever the other provider answers; both providers and the
    lexical service have been asked by then. *)
Theorem malformed_body_uncaught (rw : RawWorld) (userQuery : string) :
  originalTerms_of userQuery <> [] ->
  malformed_europeana (raw_europeana_outcome rw userQuery)
  || malformed_plos (raw_plos_outcome rw userQuery) = true ->
  search_raw rw (Some userQuery)
  = (uncaught,
     (map (fun term => GetDatamuse (datamuse_params term))
          (originalTerms_of userQuery)
      ++ [GetEuropeana
            {| Europeana.query := queryString_for (expected rw) userQuery;
               Europeana.wskey := raw_EUROPEANA_API_KEY rw;
               Europeana.rows := 20 |};
          GetPlos
            {| Plos.q := queryString_for (expected rw) userQuery;
               Plos.wt := "json";
               Plos.fl := "title_display,score,id";
               Plos.rows := 20 |}])%list).
Proof.
  intros Hterms Hbad. rewrite (search_raw_run rw _ Hterms).
  apply orb_true_iff in Hbad. destruct Hbad as [H|H].
  - apply europeanaItems_raw_none in H. now rewrite H.
  - apply plosItems_raw_none in H. rewrite H.
    now destruct (europeanaItems_raw _).
Qed.

(** The raw query "cat" when [items] of Europeana is an object. *)
Lemma malformed_body_uncaught_witness :
  search_raw (drifted raw_other) (Some "cat")
  = (uncaught,
     (map (fun term => GetDatamuse (datamuse_params term))
          (originalTerms_of "cat")
      ++ [GetEuropeana
            {| Europeana.query :=
                 queryString_for (expected (drifted raw_other)) "cat";
               Europeana.wskey := raw_EUROPEANA_API_KEY (drifted raw_other);
               Europeana.rows := 20 |};
          GetPlos
            {| Plos.q := queryString_for (expected (drifted raw_other)) "cat";
               Plos.wt := "json";
               Plos.fl := "title_display,score,id";
               Plos.rows := 20 |}])%list).
Proof.
  apply (malformed_body_uncaught (drifted raw_other) "cat").
  - discriminate.
  - reflexivity.
Defined.

(** ** Expansion failures, end to end *)

Lemma length_mapi_from {A B : Type} (f : A -> nat -> B) (k : nat) (l : list A) :
  List.length (JS.mapi_from f k l) = List.length l.
Proof.
  revert k. induction l as [|x l IH]; intros k; simpl; [reflexivity|].
  now rewrite IH.
Qed.

(** A world whose lexical service differs in the answers to DataMuse only,
    and gives the same synonyms, is searched in the same way. *)
Lemma search_same_synonyms (w : World)
  (answer : Datamuse.Params -> Settled Datamuse.Body) (q : option string) :
  (forall t, synonyms_of (with_datamuse w answer) t = synonyms_of w t) ->
  search (with_datamuse w answer) q = search w q.
Proof.
  intros Hsyn. rewrite !search_guard.
  destruct q as [[|c s]|]; try reflexivity.
  rewrite !pipeline_eq. cbv zeta.
  assert (Hqs : queryString_for (with_datamuse w answer) (String c s)
                = queryString_for w (String c s)).
  { unfold queryString_for. f_equal. apply map_ext. exact Hsyn. }
  rewrite Hqs. reflexivity.
Qed.

Lemma no_matches_synonyms (w : World) (term : string) :
  expansion_failed (datamuse w (datamuse_params term)) = true ->
  forall t, synonyms_of (no_matches_for term w) t = synonyms_of w t.
Proof.
  intros Hfail t. unfold no_matches_for, synonyms_of, expandQuery,
    axios_get_datamuse, bind, ret. cbn [value_of fst datamuse with_datamuse].
  cbn [Datamuse.ml datamuse_params].
  destruct (String.eqb_spec t term) as [->|Hne]; [|reflexivity].
  pose proof (expansion_failed_synonyms w term Hfail) as H.
  unfold synonyms_of, expandQuery, axios_get_datamuse, bind, ret in H.
  cbn [value_of fst] in H. rewrite H. reflexivity.
Qed.

(** C6: when the expansion of a term fails (the request is rejected, or the
    body cannot be read), [expandQuery] answers the empty array and the group
    of the term is the term itself.  For every raw query that has the term,
    the query string is then groups joined by AND with the bare term at the
    place of the term; the handler goes on and sends this query string to
    both providers, answers their ranked records, and altogether does what
    it does when the service answers that the term has no match. *)
Theorem expansion_failure_swallowed (w : World) (term : string) :
  expansion_failed (datamuse w (datamuse_params term)) = true ->
  value_of (expandQuery w term) = []
  /\ queryGroup term (value_of (expandQuery w term)) = term
  /\ forall userQuery i,
       nth_error (originalTerms_of userQuery) i = Some term ->
       (exists before after,
           List.length before = i
           /\ List.length after
              = (List.length (originalTerms_of userQuery) - S i)%nat
           /\ queryString_for w userQuery
              = String.concat " AND " (before ++ term :: after)%list)
       /\ requests_of (search w (Some userQuery))
          = (map (fun t => GetDatamuse (datamuse_params t))
                 (originalTerms_of userQuery)
             ++ [GetEuropeana
                   {| Europeana.query := queryString_for w userQuery;
                      Europeana.wskey := EUROPEANA_API_KEY w;
                      Europeana.rows := 20 |};
                 GetPlos
                   {| Plos.q := queryString_for w userQuery;
                      Plos.wt := "json";
                      Plos.fl := "title_display,score,id";
                      Plos.rows := 20 |}])%list
       /\ value_of (search w (Some userQuery))
          = json (rank (normalize
                          (europeanaItems (europeana_outcome w userQuery)
                           ++ plosItems (plos_outcome w userQuery))%list))
       /\ search w (Some userQuery)
          = search (no_matches_for term w) (Some userQuery).
Proof.
  intros Hfail. pose proof (expansion_failed_synonyms w term Hfail) as Hsyn.
  fold (synonyms_of w term). rewrite Hsyn.
  split; [reflexivity|]. split; [reflexivity|].
  intros userQuery i Hnth.
  assert (Hterms : originalTerms_of userQuery <> [])
    by (intros H; rewrite H in Hnth; destruct i; discriminate).
  assert (Hq : userQuery <> "") by (intros ->; now apply Hterms).
  assert (Hqs : queryString_for w userQuery <> "").
  { intros H. now apply queryString_empty_iff in H. }
  split; [|rewrite (search_run w _ Hq Hqs); split; [reflexivity|split]].
  - pose proof (nth_error_queryGroups w _ i term Hnth) as Hgroup.
    rewrite Hsyn in Hgroup. change (queryGroup term []) with term in Hgroup.
    destruct (nth_error_split _ _ Hgroup) as [before [after [Hsplit Hlen]]].
    exists before, after. split; [exact Hlen|]. split.
    + apply (f_equal (@List.length string)) in Hsplit.
      unfold queryGroups_of, JS.mapi in Hsplit.
      rewrite length_mapi_from, length_app in Hsplit. simpl in Hsplit. lia.
    + unfold queryString_for, queryString_of, JS.join. now rewrite Hsplit.
  - reflexivity.
  - rewrite <- (search_run w _ Hq Hqs). symmetry.
    apply search_same_synonyms. now apply no_matches_synonyms.
Qed.

(** The term "cat", with no network. *)
Lemma expansion_failure_swallowed_witness :
  value_of (expandQuery offline "cat") = []
  /\ queryGroup "cat" (value_of (expandQuery offline "cat")) = "cat"
  /\ forall userQuery i,
       nth_error (originalTerms_of userQuery) i = Some "cat" ->
       (exists before after,
           List.length before = i
           /\ List.length after
              = (List.length (originalTerms_of userQuery) - S i)%nat
           /\ queryString_for offline userQuery
              = String.concat " AND " (before ++ "cat" :: after)%list)
       /\ requests_of (search offline (Some userQuery))
          = (map (fun t => GetDatamuse (datamuse_params t))
                 (originalTerms_of userQuery)
             ++ [GetEuropeana
                   {| Europeana.query := queryString_for offline userQuery;
                      Europeana.wskey := EUROPEANA_API_KEY offline;
                      Europeana.rows := 20 |};
                 GetPlos
                   {| Plos.q := queryString_for offline userQuery;
                      Plos.wt := "json";
                      Plos.fl := "title_display,score,id";
                      Plos.rows := 20 |}])%list
       /\ value_of (search offline (Some userQuery))
          = json (rank (normalize
                          (europeanaItems (europeana_outcome offline userQuery)
                           ++ plosItems (plos_outcome offline userQuery))%list))
       /\ search offline (Some userQuery)
          = search (no_matches_for "cat" offline) (Some userQuery).
Proof.
  apply (expansion_failure_swallowed offline "cat"). reflexivity.
Defined.

(** DataMuse is down, the providers answer: "cat dog" is searched as
    [cat AND dog] and the records of both providers are answered. *)
Example search_without_datamuse :
  search (with_datamuse scenario (fun _ => rejected network_error))
         (Some "cat dog")
  = (json
       [ {| title := "A"; source := "Europeana";
            original_relevance_score := 10; link := "http://a";
            normalized_score := 10 / 10 |};
         {| title := "B"; source := "PLOS";
            original_relevance_score := 5;
            link := "https://journals.plos.org/plosone/article?id=10.1371/b";
            normalized_score := 5 / 10 |} ],
     [ GetDatamuse (datamuse_params "cat");
       GetDatamuse (datamuse_params "dog");
       GetEuropeana (europeana_params scenario "cat AND dog");
       GetPlos (plos_params "cat AND dog") ]).
Proof. reflexivity. Qed.

(** ** The shape of the records *)

Lemma or_else_not_empty (a : option string) (b : string) :
  b <> "" -> JS.or_else a b <> "".
Proof.
  intros Hb. destruct a as [s|]; simpl; [|exact Hb].
  unfold JS.truthy. destruct (String.eqb_spec s ""); simpl; assumption.
Qed.



(** A Europeana record has the first title of the item, and the placeholder
    when the item has no title or an empty array of titles. *)
Lemma europeanaItem_title (item : Europeana.Item) :
  (forall first others,
      Europeana.title item = Some (first :: others) ->
      title (europeanaItem item) = first)
  /\ (Europeana.title item = None \/ Europeana.title item = Some [] ->
      title (europeanaItem item) = sin_titulo).
Proof.
  split.
  - intros first others H. simpl. now rewrite H.
  - intros [H|H]; simpl; now rewrite H.
Qed.

(** The link is never empty: ['#'] stands in for an absent or empty one. *)
Lemma item_link_not_empty (item : Europeana.Item) (doc : Plos.Doc) :
  link (europeanaItem item) <> "" /\ link (plosItem doc) <> "".
Proof.
  split; simpl.
  - apply or_else_not_empty, or_else_not_empty. discriminate.
  - destruct (Plos.id doc) as [id|]; [|discriminate].
    destruct (JS.truthy id); discriminate.
Qed.

(** The original score is 0 when the source reports none. *)
Lemma item_score_default (item : Europeana.Item) (doc : Plos.Doc) :
  (Europeana.score item = None ->
   original_relevance_score (europeanaItem item) = 0%Q)
  /\ (Plos.score doc = None -> original_relevance_score (plosItem doc) = 0%Q).
Proof. split; intros H; simpl; now rewrite H. Qed.

(** When no original score is negative, the normalized scores are between
    0 and 1. *)
Lemma normalized_unit_interval (allResults : list ResultRecord) :
  Forall (fun r => (0 <= original_relevance_score r)%Q) allResults ->
  Forall (fun r => (0 <= normalized_score r <= 1)%Q)
         (rank (normalize allResults)).
Proof.
  intros Hpos. rewrite rank_sort.
  apply (Permutation_Forall (Permutation_sym (sort_perm _ _))).
  rewrite normalize_map. apply Forall_map, Forall_forall. intros r Hin. simpl.
  rewrite Forall_forall in Hpos. specialize (Hpos r Hin).
  pose proof (divisor_of_pos (maxScore_of allResults)) as Hd.
  split.
  - apply Qle_shift_div_l; [exact Hd|]. now rewrite Qmult_0_l.
  - apply Qle_shift_div_r; [exact Hd|]. rewrite Qmult_1_l.
    unfold divisor_of. destruct (JS.gt _ _) eqn:E.
    + now apply maxScore_upper.
    + eapply Qle_trans; [apply (maxScore_upper _ _ Hin)|].
      unfold JS.gt in E. apply negb_false_iff, Qle_bool_iff in E.
      eapply Qle_trans; [exact E|discriminate].
Qed.

(** C7 fails on a Europeana item whose first title is the empty string: the
    record that reaches the caller has an empty title, where the PLOS
    mapping would have put the placeholder. *)
Example europeana_blank_title_kept :
  value_of (search blank_title_world (Some "cat"))
  = json [ {| title := ""; source := "Europeana";
              original_relevance_score := 1; link := "#";
              normalized_score := 1 / 1 |} ]
  /\ title (europeanaItem blank_title_item) = ""
  /\ title (plosItem {| Plos.title_display := Some "";
                        Plos.score := Some 1%Q;
                        Plos.id := None |}) = sin_titulo.
Proof. repeat split. Qed.

(** ** Further properties of the handler: requests and terms *)

(** X1: the requests of the handler, for every value of the parameter: none
    when it is absent or empty; otherwise one DataMuse request per term, in
    the order of the terms, and then, when there is a term at all, one
    request to Europeana and one to PLOS, in that order, with the same query
    string. *)
Theorem search_requests (w : World) (q : option string) :
  requests_of (search w q)
  = match q with
    | None => []
    | Some userQuery =>
        if userQuery =? "" then []
        else
          (map (fun term => GetDatamuse (datamuse_params term))
               (originalTerms_of userQuery)
           ++ match originalTerms_of userQuery with
              | [] => []
              | _ :: _ =>
                  [GetEuropeana
                     {| Europeana.query := queryString_for w userQuery;
                        Europeana.wskey := EUROPEANA_API_KEY w;
                        Europeana.rows := 20 |};
                   GetPlos
                     {| Plos.q := queryString_for w userQuery;
                        Plos.wt := "json";
                        Plos.fl := "title_display,score,id";
                        Plos.rows := 20 |}]
              end)%list
    end.
Proof.
  destruct q as [userQuery|]; [|reflexivity].
  destruct (String.eqb_spec userQuery "") as [->|Hq]; [reflexivity|].
  destruct (string_dec (queryString_for w userQuery) "") as [Hqs|Hqs].
  - rewrite (search_no_query_string w _ Hq Hqs).
    apply queryString_empty_iff in Hqs. now rewrite Hqs.
  - rewrite (search_run w _ Hq Hqs).
    destruct (originalTerms_of userQuery) eqn:E; [|reflexivity].
    elim Hqs. now apply queryString_empty_iff.
Qed.

Lemma split_all_white_space (sep : ascii) (s : string) :
  JS.is_white_space sep = true ->
  Forall (fun tok => all_white_space tok = true) (JS.split sep s) ->
  all_white_space s = true.
Proof.
  intros Hsep. unfold all_white_space.
  induction s as [|c s IH]; simpl; [reflexivity|].
  destruct (Ascii.eqb_spec c sep) as [->|Hc].
  - intros H. inversion H; subst. rewrite Hsep. simpl. now apply IH.
  - destruct (JS.split sep s) as [|tok rest].
    + intros H. inversion H as [|? ? Htok _]; subst. simpl in Htok.
      apply andb_true_iff in Htok. destruct Htok as [-> _].
      simpl. apply IH. constructor.
    + intros H. inversion H as [|? ? Htok Hrest]; subst. simpl in Htok.
      apply andb_true_iff in Htok. destruct Htok as [-> Htok].
      simpl. apply IH. now constructor.
Qed.

(** A raw query has no term exactly when it is all white space. *)
Lemma no_terms_iff (userQuery : string) :
  originalTerms_of userQuery = [] <-> all_white_space userQuery = true.
Proof.
  split; [|apply all_white_space_no_terms].
  rewrite originalTerms_filter. intros H.
  apply (split_all_white_space " "); [reflexivity|].
  apply Forall_forall. intros tok Hin.
  destruct (all_white_space tok) eqn:E; [reflexivity|].
  assert (Hf : In tok (filter (fun tok => negb (all_white_space tok))
                              (JS.split " " userQuery))).
  { apply filter_In. split; [assumption|]. now rewrite E. }
  rewrite H in Hf. destruct Hf.
Qed.

(** X2: the handler gets through a raw query without issuing any request
    exactly when the raw query is all white space (the empty raw query is);
    for a raw query with a character that is not white space, its requests
    to the providers are one to Europeana and one to PLOS, with the query
    string built for the raw query. *)
Theorem no_request_iff_blank (w : World) (userQuery : string) :
  (requests_of (search w (Some userQuery)) = []
   <-> all_white_space userQuery = true)
  /\ filter is_provider_request (requests_of (search w (Some userQuery)))
     = if all_white_space userQuery then []
       else [GetEuropeana
               {| Europeana.query := queryString_for w userQuery;
                  Europeana.wskey := EUROPEANA_API_KEY w;
                  Europeana.rows := 20 |};
             GetPlos
               {| Plos.q := queryString_for w userQuery;
                  Plos.wt := "json";
                  Plos.fl := "title_display,score,id";
                  Plos.rows := 20 |}].
Proof.
  destruct (string_dec userQuery "") as [->|Hq]; [now split|].
  destruct (all_white_space userQuery) eqn:Hws.
  - apply no_terms_iff in Hws.
    assert (Hqs : queryString_for w userQuery = "")
      by now apply queryString_empty_iff.
    rewrite (search_no_query_string w _ Hq Hqs). now split.
  - assert (Hqs : queryString_for w userQuery <> "").
    { intros H. apply queryString_empty_iff, no_terms_iff in H. congruence. }
    rewrite (search_run w _ Hq Hqs). unfold requests_of. cbn [snd]. split.
    + split; [|discriminate]. intros H. apply app_eq_nil in H.
      destruct H as [_ H]. discriminate.
    + rewrite filter_app. cbn [filter is_provider_request].
      replace (filter is_provider_request
                 (map (fun term => GetDatamuse (datamuse_params term))
                      (originalTerms_of userQuery)))
        with (@nil Request); [reflexivity|].
      induction (originalTerms_of userQuery); simpl; congruence.
Qed.

Lemma pipeline_terms (w : World) (q1 q2 : string) :
  originalTerms_of q1 = originalTerms_of q2 -> pipeline w q1 = pipeline w q2.
Proof. intros H. unfold pipeline. now rewrite H. Qed.

Lemma terms_join_not_empty (terms : list string) :
  terms <> [] -> Forall (fun term => term <> "") terms ->
  JS.join " " terms <> "".
Proof.
  destruct terms as [|t ts]; [congruence|]. intros _ H.
  inversion H as [|? ? Ht _]; subst. unfold JS.join. simpl.
  destruct ts; [assumption|]. now apply string_app_not_empty.
Qed.

(** Cutting the terms joined by SPACE gives the terms again. *)
Lemma originalTerms_join (userQuery : string) :
  originalTerms_of (JS.join " " (originalTerms_of userQuery))
  = originalTerms_of userQuery.
Proof.
  pose proof (originalTerms_shape userQuery) as Hshape.
  destruct (originalTerms_of userQuery) as [|t ts] eqn:E; [reflexivity|].
  rewrite originalTerms_filter, split_join.
  - apply forallb_filter_id. apply forallb_forall. intros term Hin.
    rewrite Forall_forall in Hshape. destruct (Hshape term Hin) as [_ [_ H]].
    now rewrite H.
  - discriminate.
  - eapply Forall_impl; [|exact Hshape]. intros term H. apply H.
Qed.

(** X3: the terms of a raw query, joined by single SPACE characters, are a
    raw query with the same terms; and the handler does for it what it does
    for the raw query itself (same requests, same response), when there is a
    term: leading, trailing and repeated SPACE characters do not matter. *)
Theorem search_terms_rejoined (w : World) (userQuery : string) :
  originalTerms_of (JS.join " " (originalTerms_of userQuery))
  = originalTerms_of userQuery
  /\ (originalTerms_of userQuery <> [] ->
      search w (Some (JS.join " " (originalTerms_of userQuery)))
      = search w (Some userQuery)).
Proof.
  split; [apply originalTerms_join|].
  intros Hterms. rewrite !search_guard.
  assert (Hj : JS.join " " (originalTerms_of userQuery) <> "").
  { apply terms_join_not_empty; [assumption|].
    eapply Forall_impl; [|apply originalTerms_shape]. intros term H. apply H. }
  destruct (JS.join " " (originalTerms_of userQuery)) eqn:Ej; [congruence|].
  destruct userQuery as [|c s']; [now elim Hterms|].
  rewrite <- Ej. apply pipeline_terms, originalTerms_join.
Qed.

Example search_terms_rejoined_spaces :
  originalTerms_of "  cat   dog " = ["cat"; "dog"]
  /\ search scenario (Some "  cat   dog ") = search scenario (Some "cat dog").
Proof. split; reflexivity. Qed.

(** ** Further properties of the query groups *)

Lemma string_length_app (a b : string) :
  String.length (a ++ b) = (String.length a + String.length b)%nat.
Proof. induction a as [|c a IH]; simpl; [reflexivity|now rewrite IH]. Qed.

Lemma string_app_assoc (a b c : string) : (a ++ b) ++ c = a ++ b ++ c.
Proof. induction a as [|x a IH]; simpl; [reflexivity|now rewrite IH]. Qed.

(** The members of a group: the term, then the synonyms that differ from
    it, each once. *)
Lemma new_Set_term_first (term : string) (synonyms : list string) :
  JS.new_Set (term :: synonyms)
  = term :: filter (fun y => negb (y =? term)) (dedup_first synonyms).
Proof. now rewrite new_Set_dedup_first. Qed.

Lemma filter_nil_iff {A : Type} (f : A -> bool) (l : list A) :
  filter f l = [] <-> forallb (fun x => negb (f x)) l = true.
Proof.
  induction l as [|x l IH]; simpl; [tauto|].
  destruct (f x); simpl; [split; discriminate|exact IH].
Qed.

Lemma forallb_dedup_first (f : string -> bool) (l : list string) :
  forallb f (dedup_first l) = forallb f l.
Proof.
  apply eq_true_iff_eq. rewrite !forallb_forall.
  split; intros H x Hx; apply H; now apply dedup_first_In.
Qed.

(** X4: the group of a term is the bare term exactly when every synonym is
    the term itself (so when there is none); otherwise it is a parenthesis
    that opens with the term, followed by OR and by the synonyms that
    differ from the term, each once and in their order. *)
Theorem queryGroup_bare_iff (term : string) (synonyms : list string) :
  (queryGroup term synonyms = term
   <-> forallb (String.eqb term) synonyms = true)
  /\ (forallb (String.eqb term) synonyms = false ->
      queryGroup term synonyms
      = "(" ++ term ++ " OR "
        ++ JS.join " OR "
             (filter (fun y => negb (y =? term)) (dedup_first synonyms))
        ++ ")").
Proof.
  assert (Hothers :
            filter (fun y => negb (y =? term)) (dedup_first synonyms) = []
            <-> forallb (String.eqb term) synonyms = true).
  { rewrite filter_nil_iff, forallb_dedup_first.
    rewrite !forallb_forall.
    split; intros H y Hy; specialize (H y Hy);
      rewrite negb_involutive in *; now rewrite String.eqb_sym. }
  unfold queryGroup. rewrite new_Set_term_first.
  destruct (forallb (String.eqb term) synonyms) eqn:E.
  - rewrite (proj2 Hothers eq_refl). simpl.
    split; [tauto|discriminate].
  - destruct (filter _ (dedup_first synonyms)) as [|o os] eqn:Eo.
    + destruct Hothers as [H _]. specialize (H eq_refl). discriminate.
    + assert (Hg : (if (1 <? List.length (term :: o :: os))%nat
                    then "(" ++ JS.join " OR " (term :: o :: os) ++ ")"
                    else term)
                   = "(" ++ term ++ " OR " ++ JS.join " OR " (o :: os) ++ ")").
      { unfold JS.join. cbn [List.length Nat.ltb Nat.leb String.concat].
        rewrite !string_app_assoc. reflexivity. }
      rewrite Hg. split; [|reflexivity].
      split; [|discriminate]. intros H.
      apply (f_equal String.length) in H.
      cbn [append String.length] in H.
      rewrite string_length_app in H. lia.
Qed.

Example queryGroup_term_echoed :
  queryGroup "cat" ["cat"; "cat"] = "cat"
  /\ queryGroup "cat" ["feline"; "cat"; "kitty"; "feline"]
     = "(cat OR feline OR kitty)".
Proof. split; reflexivity. Qed.

(** ** Further properties of normalization and ranking *)

Open Scope Q_scope.

Lemma maxScore_of_content (l1 l2 : list ResultRecord) :
  map content l1 = map content l2 -> maxScore_of l1 = maxScore_of l2.
Proof.
  intros H. unfold maxScore_of. f_equal.
  assert (Ho : forall l, map original_relevance_score l
                         = map (fun c => snd (fst c)) (map content l)).
  { intros l. rewrite map_map. reflexivity. }
  now rewrite !Ho, H.
Qed.

Lemma normalize_record_of (l : list ResultRecord) :
  normalize l
  = map (fun c => record_of c (snd (fst c) / divisor_of (maxScore_of l)))
        (map content l).
Proof. rewrite normalize_map, map_map. reflexivity. Qed.

(** X5: normalization reads the content of the records only, never a
    normalized score they carry, and keeps the content; so normalizing a
    second time changes nothing. *)
Theorem normalize_idempotent (allResults : list ResultRecord) :
  (forall others,
      map content others = map content allResults ->
      normalize others = normalize allResults)
  /\ normalize (normalize allResults) = normalize allResults.
Proof.
  assert (H : forall others,
             map content others = map content allResults ->
             normalize others = normalize allResults).
  { intros others Hc. rewrite !normalize_record_of.
    now rewrite (maxScore_of_content _ _ Hc), Hc. }
  split; [exact H|]. apply H, normalize_content.
Qed.

(** The ranked records are the collected ones with their normalized
    scores. *)
Lemma in_rank_normalize (l : list ResultRecord) (r : ResultRecord) :
  In r (rank (normalize l))
  <-> exists x, In x l
                /\ r = set_normalized_score x
                         (original_relevance_score x
                          / divisor_of (maxScore_of l)).
Proof.
  rewrite rank_sort. split.
  - intros H. apply (Permutation_in _ (sort_perm _ _)) in H.
    rewrite normalize_map in H. apply in_map_iff in H.
    destruct H as [x [<- Hx]]. now exists x.
  - intros [x [Hx ->]].
    apply (Permutation_in _ (Permutation_sym (sort_perm _ _))).
    rewrite normalize_map. apply in_map_iff. now exists x.
Qed.

Lemma normalized_le_one (l : list ResultRecord) (x : ResultRecord) :
  In x l ->
  original_relevance_score x / divisor_of (maxScore_of l) <= 1.
Proof.
  intros Hin. apply Qle_shift_div_r; [apply divisor_of_pos|].
  rewrite Qmult_1_l. unfold divisor_of. destruct (JS.gt _ _) eqn:E.
  - now apply maxScore_upper.
  - eapply Qle_trans; [apply (maxScore_upper _ _ Hin)|].
    unfold JS.gt in E. apply negb_false_iff, Qle_bool_iff in E.
    eapply Qle_trans; [exact E|discriminate].
Qed.

(** X7: when a collected record has a positive score, the first record of
    the response has the greatest original score and the normalized
    score 1. *)
Theorem top_record_normalized (allResults : list ResultRecord) :
  0 < maxScore_of allResults ->
  exists top rest,
    rank (normalize allResults) = top :: rest
    /\ normalized_score top == 1
    /\ original_relevance_score top == maxScore_of allResults.
Proof.
  intros Hpos.
  assert (Hne : ~ maxScore_of allResults == 0).
  { intros H. rewrite H in Hpos. now apply Qlt_irrefl in Hpos. }
  destruct (Math_max0_attained (map original_relevance_score allResults))
    as [H0|Hex]; [contradiction|].
  apply Exists_exists in Hex. destruct Hex as [s [Hin Hs]].
  apply in_map_iff in Hin. destruct Hin as [best [<- Hbest]].
  fold (maxScore_of allResults) in Hs.
  pose proof (proj2 (in_rank_normalize allResults _)
                (ex_intro _ best (conj Hbest eq_refl))) as Hbest_in.
  pose proof (sort_descending normalized_score (normalize allResults)) as Hdesc.
  rewrite <- rank_sort in Hdesc.
  destruct (rank (normalize allResults)) as [|top rest] eqn:E;
    [destruct Hbest_in|].
  exists top, rest. split; [reflexivity|].
  assert (Htop : In top (rank (normalize allResults)))
    by (rewrite E; now left).
  apply in_rank_normalize in Htop. destruct Htop as [x [Hx Htop]].
  rewrite (divisor_of_pos_max _ Hpos) in *.
  assert (Hone : normalized_score top == 1).
  { apply Qle_antisym.
    - rewrite Htop. simpl. rewrite <- (divisor_of_pos_max _ Hpos).
      now apply normalized_le_one.
    - assert (Hb : 1 == original_relevance_score best / maxScore_of allResults).
      { rewrite Hs. symmetry. now apply Qmult_inv_r. }
      rewrite Hb. destruct Hbest_in as [Heq|Hrest].
      + rewrite Heq. simpl. apply Qle_refl.
      + inversion Hdesc as [|? ? _ Hall]; subst.
        rewrite Forall_forall in Hall. apply (Hall _ Hrest). }
  split; [exact Hone|].
  rewrite Htop in Hone |- *. simpl in *.
  rewrite <- (Qmult_div_r (original_relevance_score x)
                (maxScore_of allResults) Hne).
  rewrite Hone. apply Qmult_1_r.
Qed.

(** A single record of score 1/2. *)
Lemma top_record_normalized_witness :
  exists top rest,
    rank (normalize [half_scored]) = top :: rest
    /\ normalized_score top == 1
    /\ original_relevance_score top == maxScore_of [half_scored].
Proof.
  apply (top_record_normalized [half_scored]). reflexivity.
Defined.

(** X8: no normalized score of the response is above 1; a record whose
    original score is at least 0 has a normalized score that is at least 0,
    and a record whose original score is at most 0 has a normalized score
    that is at most 0. *)
Theorem normalized_bounds (allResults : list ResultRecord) :
  Forall (fun r =>
            normalized_score r <= 1
            /\ (0 <= original_relevance_score r -> 0 <= normalized_score r)
            /\ (original_relevance_score r <= 0 -> normalized_score r <= 0))
         (rank (normalize allResults)).
Proof.
  apply Forall_forall. intros r Hr.
  apply in_rank_normalize in Hr. destruct Hr as [x [Hx ->]]. simpl.
  pose proof (divisor_of_pos (maxScore_of allResults)) as Hd.
  split; [now apply normalized_le_one|]. split.
  - intros H. apply Qle_shift_div_l; [exact Hd|]. now rewrite Qmult_0_l.
  - intros H. apply Qle_shift_div_r; [exact Hd|]. now rewrite Qmult_0_l.
Qed.

Lemma Math_max0_nonpositive (xs : list Q) :
  Forall (fun x => x <= 0) xs -> JS.Math_max0 xs == 0.
Proof.
  intros H. apply Qle_antisym; [|apply Math_max0_nonneg].
  induction H as [|x xs Hx _ IH]; simpl; [apply Qle_refl|].
  now apply Q.max_lub.
Qed.

(** X9: when no collected record has a positive score, the divisor is 1:
    every record of the response has its original score as normalized score,
    so 0 when all the scores are 0. *)
Theorem no_positive_score_kept (allResults : list ResultRecord) :
  Forall (fun r => original_relevance_score r <= 0) allResults ->
  Forall (fun r => normalized_score r == original_relevance_score r)
         (rank (normalize allResults)).
Proof.
  intros H. apply Forall_forall. intros r Hr.
  apply in_rank_normalize in Hr. destruct Hr as [x [Hx ->]]. simpl.
  rewrite divisor_of_zero_max; [unfold Qdiv; apply Qmult_1_r|].
  unfold maxScore_of. rewrite Math_max0_nonpositive; [apply Qle_refl|].
  now apply Forall_map.
Qed.

(** A record of score 0 and one of score -3/2. *)
Lemma no_positive_score_kept_witness :
  Forall (fun r => normalized_score r == original_relevance_score r)
         (rank (normalize unscored)).
Proof.
  apply (no_positive_score_kept unscored).
  repeat constructor; discriminate.
Defined.

Close Scope Q_scope.

(** ** Further properties of the records *)






(** ** The frontend *)



Lemma truthy_trim (s : string) :
  JS.truthy (JS.trim s) = negb (all_white_space s).
Proof. unfold JS.truthy. apply trim_test. Qed.

(** X12: [performSearch] sends a query to the backend exactly when the
    input has a character that is not white space, and the query is the
    trimmed input.  For a blank input it shows the prompt as error message
    and touches neither the rows of the table, which it hides, nor the
    loading message. *)
Theorem performSearch_queries (b : Frontend.Browser) (page : Frontend.Page) :
  snd (Frontend.performSearch b page)
  = (if all_white_space (Frontend.searchInput_value page) then []
     else [JS.trim (Frontend.searchInput_value page)])
  /\ (all_white_space (Frontend.searchInput_value page) = true ->
      Frontend.errorMessage_hidden (fst (Frontend.performSearch b page)) = false
      /\ Frontend.errorMessage_textContent (fst (Frontend.performSearch b page))
         = Frontend.por_favor
      /\ Frontend.resultsTable_hidden (fst (Frontend.performSearch b page)) = true
      /\ Frontend.resultsTableBody (fst (Frontend.performSearch b page))
         = Frontend.resultsTableBody page
      /\ Frontend.loadingMessage_hidden (fst (Frontend.performSearch b page))
         = Frontend.loadingMessage_hidden page).
Proof.
  unfold Frontend.performSearch. rewrite truthy_trim, negb_involutive.
  destruct (all_white_space (Frontend.searchInput_value page)).
  - repeat split.
  - split; [reflexivity|discriminate].
Qed.

(** ** The page over time *)

Lemma settle_with_input (b : Frontend.Browser) (fetched : Frontend.Fetched)
  (value : string) (p : Frontend.Page) :
  Frontend.settle b fetched (Session.with_input value p)
  = Session.with_input value (Frontend.settle b fetched p).
Proof.
  destruct fetched as [message|status error|data]; try reflexivity.
  simpl. destruct (List.length data =? 0)%nat; reflexivity.
Qed.

Lemma last_default {A : Type} (l : list A) (d d' : A) :
  l <> [] -> List.last l d = List.last l d'.
Proof.
  induction l as [|x l IH]; [congruence|]. intros _.
  destruct l as [|y l]; [reflexivity|].
  change (List.last (y :: l) d = List.last (y :: l) d').
  apply IH. discriminate.
Qed.

Lemma run_inputs (b : Frontend.Browser) (values : list string)
  (s : Session.State) :
  values <> [] ->
  Session.run b (map Session.input values) s
  = {| Session.page :=
         Session.with_input
           (List.last values (Frontend.searchInput_value (Session.page s)))
           (Session.page s);
       Session.pending := Session.pending s |}.
Proof.
  revert s. induction values as [|v values IH]; intros s Hne; [congruence|].
  destruct values as [|v' values]; [reflexivity|].
  change (Session.run b (map Session.input (v :: v' :: values)) s)
    with (Session.run b (map Session.input (v' :: values))
            (Session.step b s (Session.input v))).
  rewrite IH by discriminate. cbn [Session.step Session.page Session.pending].
  change (List.last (v :: v' :: values)
            (Frontend.searchInput_value (Session.page s)))
    with (List.last (v' :: values)
            (Frontend.searchInput_value (Session.page s))).
  rewrite (last_default (v' :: values) _
             (Frontend.searchInput_value (Session.page s)))
    by discriminate.
  reflexivity.
Qed.

Lemma remove_nth_last {A : Type} (l : list A) (x : A) :
  Session.remove_nth (List.length l) (l ++ [x]) = l.
Proof.
  unfold Session.remove_nth.
  induction l as [|a l IH]; [reflexivity|].
  cbn [List.length app firstn skipn]. cbn [app]. f_equal. exact IH.
Qed.

Lemma run_app (b : Frontend.Browser) (l1 l2 : list Session.Event)
  (s : Session.State) :
  Session.run b (l1 ++ l2) s = Session.run b l2 (Session.run b l1 s).
Proof. unfold Session.run. apply fold_left_app. Qed.

Lemma step_search (b : Frontend.Browser) (s : Session.State) :
  Session.step b s Session.search
  = if all_white_space (Frontend.searchInput_value (Session.page s))
    then {| Session.page :=
              Frontend.displayError Frontend.por_favor (Session.page s);
            Session.pending := Session.pending s |}
    else {| Session.page := Frontend.start_loading (Session.page s);
            Session.pending :=
              (Session.pending s
               ++ [JS.trim (Frontend.searchInput_value (Session.page s))])%list |}.
Proof.
  unfold Session.step. rewrite truthy_trim, negb_involutive. reflexivity.
Qed.

Lemma step_settle_last (b : Frontend.Browser) (p : Frontend.Page)
  (awaiting : list string) (query : string) (fetched : Frontend.Fetched) :
  Session.step b {| Session.page := p;
                    Session.pending := (awaiting ++ [query])%list |}
    (Session.settle (List.length awaiting) fetched)
  = {| Session.page := Frontend.settle b fetched p;
       Session.pending := awaiting |}.
Proof.
  unfold Session.step. cbn [Session.pending Session.page].
  rewrite nth_error_app2, Nat.sub_diag by lia. cbn [nth_error].
  now rewrite remove_nth_last.
Qed.

(** A call that runs alone leaves the page that it makes of the page it
    started on, with the last edit of the search field, and the calls that
    awaited before still await. *)
Lemma run_alone (b : Frontend.Browser) (s : Session.State)
  (values : list string) (fetched : Frontend.Fetched) :
  all_white_space (Frontend.searchInput_value (Session.page s)) = false ->
  Session.run b (Session.alone s values fetched) s
  = {| Session.page :=
         Session.with_input
           (List.last values (Frontend.searchInput_value (Session.page s)))
           (Frontend.settle b fetched
              (Frontend.start_loading (Session.page s)));
       Session.pending := Session.pending s |}.
Proof.
  intros Hws. unfold Session.alone.
  change (Session.run b (Session.search :: ?l) s)
    with (Session.run b l (Session.step b s Session.search)).
  rewrite step_search, Hws, run_app.
  destruct values as [|v values].
  - cbn [map]. change (Session.run b [] ?x) with x.
    change (Session.run b [?e] ?x) with (Session.step b x e).
    rewrite step_settle_last. f_equal.
    destruct fetched as [message|status error|[|r data]]; reflexivity.
  - rewrite run_inputs by discriminate.
    change (Session.run b [?e] ?x) with (Session.step b x e).
    cbn [Session.page Session.pending].
    rewrite step_settle_last, settle_with_input. reflexivity.
Qed.

Lemma step_steady (b : Frontend.Browser) (s : Session.State)
  (e : Session.Event) :
  Session.steady s -> Session.steady (Session.step b s e).
Proof.
  intros [Htable Hloading]. unfold Session.steady.
  destruct e as [value| |k fetched]; simpl.
  - split; assumption.
  - destruct (negb (JS.truthy _)); simpl.
    + split; [discriminate|assumption].
    + split; [discriminate|]. intros _ H. apply app_eq_nil in H.
      destruct H as [_ H]. discriminate.
  - destruct (nth_error (Session.pending s) k); [|split; assumption].
    destruct fetched as [message|status error|data]; simpl;
      try (split; discriminate).
    destruct data as [|r data]; simpl.
    + split; [assumption|discriminate].
    + split; [|discriminate]. intros _ H. apply app_eq_nil in H.
      destruct H as [_ H]. discriminate.
Qed.

(** X11: whatever the order of the edits, the calls of [performSearch] and
    their resumptions, from a page where it is so, the table is shown only
    with rows in it and the loading message only while a call awaits.  And
    when a call runs alone, exactly one of the error message, the table and
    the message of no results is shown after it, and the loading message is
    hidden. *)
Theorem session_steady (b : Frontend.Browser) (s : Session.State) :
  (forall events,
      Session.steady s -> Session.steady (Session.run b events s))
  /\ (forall values fetched,
        all_white_space (Frontend.searchInput_value (Session.page s)) = false ->
        Frontend.panels_shown
          (Session.page (Session.run b (Session.alone s values fetched) s))
        = 1%nat
        /\ Frontend.loadingMessage_hidden
             (Session.page (Session.run b (Session.alone s values fetched) s))
           = true).
Proof.
  split.
  - intros events. revert s. unfold Session.run.
    induction events as [|e events IH]; intros s Hs; [exact Hs|].
    simpl. apply IH. now apply step_steady.
  - intros values fetched Hws. rewrite (run_alone b s values fetched Hws).
    cbn [Session.page].
    destruct fetched as [message|status error|[|r data]]; split; reflexivity.
Qed.

(** Two calls that overlap: the first fails after the second has started,
    then the second gets a list; the error message and the table are both
    shown. *)
Example overlapping_calls :
  Frontend.panels_shown
    (Session.page
       (Session.run {| Frontend.fetch := fun _ => Frontend.fetch_failed "";
                       Frontend.toFixed := no_digits |}
          [ Session.search; Session.search;
            Session.settle 0 (Frontend.fetch_failed "Failed to fetch");
            Session.settle 0 (Frontend.fetch_ok [half_scored]) ]
          {| Session.page := Frontend.page_with "cat";
             Session.pending := [] |}))
  = 2%nat.
Proof. reflexivity. Qed.

(** X13: when a call of [performSearch] runs alone and the backend answers
    a list, the table body afterwards holds one row per record of the list,
    in the order of the list, and no older row; the table is shown when the
    list has a record and the message of no results when it has none; the
    error message and the loading message are hidden. *)
Theorem settled_list_rows (b : Frontend.Browser) (s : Session.State)
  (values : list string) (data : list ResultRecord) :
  all_white_space (Frontend.searchInput_value (Session.page s)) = false ->
  Frontend.resultsTableBody
    (Session.page
       (Session.run b (Session.alone s values (Frontend.fetch_ok data)) s))
  = map (Frontend.row_of b) data
  /\ Frontend.resultsTable_hidden
       (Session.page
          (Session.run b (Session.alone s values (Frontend.fetch_ok data)) s))
     = (List.length data =? 0)%nat
  /\ Frontend.noResultsMessage_hidden
       (Session.page
          (Session.run b (Session.alone s values (Frontend.fetch_ok data)) s))
     = negb (List.length data =? 0)%nat
  /\ Frontend.errorMessage_hidden
       (Session.page
          (Session.run b (Session.alone s values (Frontend.fetch_ok data)) s))
     = true
  /\ Frontend.loadingMessage_hidden
       (Session.page
          (Session.run b (Session.alone s values (Frontend.fetch_ok data)) s))
     = true.
Proof.
  intros Hws. rewrite (run_alone b s values _ Hws). cbn [Session.page].
  destruct data; repeat split.
Qed.

(** The input "cat" and a list of one record. *)
Lemma settled_list_rows_witness :
  Frontend.resultsTableBody
    (Session.page
       (Session.run (Frontend.connected offline no_digits)
          (Session.alone {| Session.page := Frontend.page_with "cat";
                            Session.pending := [] |}
             [] (Frontend.fetch_ok [half_scored]))
          {| Session.page := Frontend.page_with "cat";
             Session.pending := [] |}))
  = map (Frontend.row_of (Frontend.connected offline no_digits)) [half_scored]
  /\ Frontend.resultsTable_hidden
       (Session.page
          (Session.run (Frontend.connected offline no_digits)
             (Session.alone {| Session.page := Frontend.page_with "cat";
                               Session.pending := [] |}
                [] (Frontend.fetch_ok [half_scored]))
             {| Session.page := Frontend.page_with "cat";
                Session.pending := [] |}))
     = (List.length [half_scored] =? 0)%nat
  /\ Frontend.noResultsMessage_hidden
       (Session.page
          (Session.run (Frontend.connected offline no_digits)
             (Session.alone {| Session.page := Frontend.page_with "cat";
                               Session.pending := [] |}
                [] (Frontend.fetch_ok [half_scored]))
             {| Session.page := Frontend.page_with "cat";
                Session.pending := [] |}))
     = negb (List.length [half_scored] =? 0)%nat
  /\ Frontend.errorMessage_hidden
       (Session.page
          (Session.run (Frontend.connected offline no_digits)
             (Session.alone {| Session.page := Frontend.page_with "cat";
                               Session.pending := [] |}
                [] (Frontend.fetch_ok [half_scored]))
             {| Session.page := Frontend.page_with "cat";
                Session.pending := [] |}))
     = true
  /\ Frontend.loadingMessage_hidden
       (Session.page
          (Session.run (Frontend.connected offline no_digits)
             (Session.alone {| Session.page := Frontend.page_with "cat";
                               Session.pending := [] |}
                [] (Frontend.fetch_ok [half_scored]))
             {| Session.page := Frontend.page_with "cat";
                Session.pending := [] |}))
     = true.
Proof.
  apply (settled_list_rows (Frontend.connected offline no_digits)
           {| Session.page := Frontend.page_with "cat";
              Session.pending := [] |} [] [half_scored]).
  reflexivity.
Defined.

(** X14: when a call of [performSearch] runs alone and the request fails or
    the response is not ok, the error message is shown with the text of the
    failure (the [error] of the body, or the status when the body has none),
    and the table is hidden and empty. *)
Theorem settled_failure_message (b : Frontend.Browser) (s : Session.State)
  (values : list string) (fetched : Frontend.Fetched) :
  all_white_space (Frontend.searchInput_value (Session.page s)) = false ->
  (forall data, fetched <> Frontend.fetch_ok data) ->
  Frontend.errorMessage_hidden
    (Session.page (Session.run b (Session.alone s values fetched) s)) = false
  /\ Frontend.resultsTable_hidden
       (Session.page (Session.run b (Session.alone s values fetched) s)) = true
  /\ Frontend.resultsTableBody
       (Session.page (Session.run b (Session.alone s values fetched) s)) = []
  /\ Frontend.errorMessage_textContent
       (Session.page (Session.run b (Session.alone s values fetched) s))
     = Frontend.ocurrio_un_error
       ++ match fetched with
          | Frontend.fetch_failed message => message
          | Frontend.fetch_not_ok status (Some error) =>
              if error =? "" then Frontend.error_del_servidor status else error
          | Frontend.fetch_not_ok status None =>
              Frontend.error_del_servidor status
          | Frontend.fetch_ok _ => ""
          end.
Proof.
  intros Hws Hfail. rewrite (run_alone b s values fetched Hws).
  cbn [Session.page].
  destruct fetched as [message|status [error|]|data].
  - repeat split.
  - repeat split. simpl. unfold JS.truthy. now destruct (error =? "").
  - repeat split.
  - now elim (Hfail data).
Qed.

(** The input "cat" and a response of status 500 with no error in the
    body. *)
Lemma settled_failure_message_witness :
  Frontend.errorMessage_hidden
    (Session.page
       (Session.run (Frontend.connected offline no_digits)
          (Session.alone {| Session.page := Frontend.page_with "cat";
                            Session.pending := [] |}
             [] (Frontend.fetch_not_ok 500 None))
          {| Session.page := Frontend.page_with "cat";
             Session.pending := [] |})) = false
  /\ Frontend.resultsTable_hidden
       (Session.page
          (Session.run (Frontend.connected offline no_digits)
             (Session.alone {| Session.page := Frontend.page_with "cat";
                               Session.pending := [] |}
                [] (Frontend.fetch_not_ok 500 None))
             {| Session.page := Frontend.page_with "cat";
                Session.pending := [] |})) = true
  /\ Frontend.resultsTableBody
       (Session.page
          (Session.run (Frontend.connected offline no_digits)
             (Session.alone {| Session.page := Frontend.page_with "cat";
                               Session.pending := [] |}
                [] (Frontend.fetch_not_ok 500 None))
             {| Session.page := Frontend.page_with "cat";
                Session.pending := [] |})) = []
  /\ Frontend.errorMessage_textContent
       (Session.page
          (Session.run (Frontend.connected offline no_digits)
             (Session.alone {| Session.page := Frontend.page_with "cat";
                               Session.pending := [] |}
                [] (Frontend.fetch_not_ok 500 None))
             {| Session.page := Frontend.page_with "cat";
                Session.pending := [] |}))
     = Frontend.ocurrio_un_error ++ "Error del servidor: 500".
Proof.
  apply (settled_failure_message (Frontend.connected offline no_digits)
           {| Session.page := Frontend.page_with "cat";
              Session.pending := [] |} [] (Frontend.fetch_not_ok 500 None)).
  - reflexivity.
  - intros data. discriminate.
Defined.




(** A call of [performSearch] that runs alone leaves the page that
    [Frontend.performSearch] gives. *)
Lemma performSearch_alone (b : Frontend.Browser) (s : Session.State) :
  all_white_space (Frontend.searchInput_value (Session.page s)) = false ->
  Session.page
    (Session.run b
       (Session.alone s []
          (Frontend.fetch b
             (JS.trim (Frontend.searchInput_value (Session.page s)))))
       s)
  = fst (Frontend.performSearch b (Session.page s)).
Proof.
  intros Hws. rewrite (run_alone b s [] _ Hws).
  unfold Frontend.performSearch. rewrite truthy_trim, Hws.
  cbn [negb fst Session.page List.last].
  destruct (Frontend.fetch b _) as [message|status error|[|r data]];
    reflexivity.
Qed.

(** The page of the scenario of the specification, when the search is
    over. *)
Example session_scenario :
  Session.run (Frontend.connected scenario no_digits)
    [ Session.input " cat dog "; Session.search;
      Session.settle 0
        (Frontend.fetch (Frontend.connected scenario no_digits) "cat dog") ]
    {| Session.page := Frontend.page_with ""; Session.pending := [] |}
  = {| Session.page :=
         {| Frontend.searchInput_value := " cat dog ";
            Frontend.loadingMessage_hidden := true;
            Frontend.errorMessage_hidden := true;
            Frontend.errorMessage_textContent := "";
            Frontend.resultsTable_hidden := false;
            Frontend.resultsTableBody :=
              [ [ Frontend.innerHTML
                    ("<a href=" ++ Frontend.quote ++ "http://a"
                     ++ Frontend.quote ++ " target=" ++ Frontend.quote
                     ++ "_blank" ++ Frontend.quote ++ " rel=" ++ Frontend.quote
                     ++ "noopener noreferrer" ++ Frontend.quote ++ ">A</a>");
                  Frontend.textContent "Europeana";
                  Frontend.textContent ""; Frontend.textContent "" ];
                [ Frontend.innerHTML
                    ("<a href=" ++ Frontend.quote
                     ++ "https://journals.plos.org/plosone/article?id=10.1371/b"
                     ++ Frontend.quote ++ " target=" ++ Frontend.quote
                     ++ "_blank" ++ Frontend.quote ++ " rel=" ++ Frontend.quote
                     ++ "noopener noreferrer" ++ Frontend.quote ++ ">B</a>");
                  Frontend.textContent "PLOS";
                  Frontend.textContent ""; Frontend.textContent "" ] ];
            Frontend.noResultsMessage_hidden := true |};
       Session.pending := [] |}.
Proof. reflexivity. Qed.
